(** * Adapter registry and automation service of mcp-superassistant

    Shallow embedding of
    - [src/pages/content/src/stores/adapter.store.ts] (the zustand store
      [useAdapterStore]: plugin registrations and the exclusive adapter slot), and
    - the automation service ([AutomationService], the handler of the
      [mcp:tool-execution-complete] DOM event), with its [initialize] and
      [cleanup].

    Every store action is a computation in a small reader/state/exception
    monad: the reader part fixes what the plugin's own lifecycle methods do
    during the call (return normally or throw) and the clock; the state is
    the store's data; an exception is a JS value thrown and not caught.
    Store actions are modelled as atomic (no interleaving of two actions). *)

From stdpp Require Import base gmap strings list.
From Stdlib Require Import Ascii.

(* ================================================================= *)
(** ** The adapter store *)

Module AdapterStore.

(** A thrown or recorded error: a plain message (the store's own
    messages such as Plugin x is disabled.) or an [Error] thrown by a plugin. *)
Inductive Err :=
| ErrString (msg : string)
| ErrThrown (msg : string).

#[global] Instance Err_eq_dec : EqDecision Err.
Proof. solve_decision. Defined.

Inductive AdapterCapability :=
| CapTextInsertion
| CapFileAttachment
| CapFormSubmission
| CapOther (tag : string).

(** [AdapterPlugin]: the plugin object. Its lifecycle methods
    ([initialize], [activate], [deactivate], [cleanup]) are external code and
    are given by the environment; the optional automation methods are
    recorded by presence ([plugin?.insertText ? ... : null]). *)
Record AdapterPlugin := mkPlugin {
  name : string;
  version : string;
  capabilities : list AdapterCapability;
  insertText_present : bool;
  attachFile_present : bool;
  submitForm_present : bool;
}.

(** [PluginRegistration['config']]: the [enabled] flag and the
    adapter-specific settings. *)
Record PluginConfig := mkConfig {
  enabled : bool;
  settings : gmap string string;
}.

(** [Partial<PluginRegistration['config']>]: every key optional. *)
Record PartialConfig := mkPartialConfig {
  upd_enabled : option bool;
  upd_settings : gmap string string;
}.

(** [{ ...config, ...configUpdate }] *)
Definition merge_config (c : PluginConfig) (u : PartialConfig) : PluginConfig :=
  mkConfig (default (enabled c) (upd_enabled u)) (upd_settings u ∪ settings c).

Inductive PluginStatus :=
| Registered
| Initialized
| Active
| Inactive
| StatusError.

#[global] Instance PluginStatus_eq_dec : EqDecision PluginStatus.
Proof. solve_decision. Defined.

Record PluginRegistration := mkReg {
  plugin : AdapterPlugin;
  config : PluginConfig;
  registeredAt : nat;
  status : PluginStatus;
  instance : option AdapterPlugin;
  error : option Err;
  lastUsedAt : option nat;
}.

(** Field updates of a registration (the source mutates the object). *)
Definition set_status (st : PluginStatus) (r : PluginRegistration) :=
  mkReg (plugin r) (config r) (registeredAt r) st (instance r) (error r) (lastUsedAt r).
Definition set_instance (i : option AdapterPlugin) (r : PluginRegistration) :=
  mkReg (plugin r) (config r) (registeredAt r) (status r) i (error r) (lastUsedAt r).
Definition set_error (e : option Err) (r : PluginRegistration) :=
  mkReg (plugin r) (config r) (registeredAt r) (status r) (instance r) e (lastUsedAt r).
Definition set_lastUsedAt (t : option nat) (r : PluginRegistration) :=
  mkReg (plugin r) (config r) (registeredAt r) (status r) (instance r) (error r) t.
Definition set_config (c : PluginConfig) (r : PluginRegistration) :=
  mkReg (plugin r) c (registeredAt r) (status r) (instance r) (error r) (lastUsedAt r).

(** [registeredPlugins] is a plain JS object ([{}], then copies made by
    spreading it), so [registeredPlugins[k]] finds an own property first
    and otherwise a property of [Object.prototype]. These are its
    properties: each is a built-in function, except [__proto__], whose
    getter returns [Object.prototype] itself. All are truthy. *)
Definition proto_keys : list string :=
  ["constructor"; "__defineGetter__"; "__defineSetter__"; "hasOwnProperty";
   "__lookupGetter__"; "__lookupSetter__"; "isPrototypeOf"; "propertyIsEnumerable";
   "toString"; "valueOf"; "__proto__"; "toLocaleString"].

Definition proto_object_key : string := "__proto__".

(** The properties the store writes on a built-in object it found at a
    key of [registeredPlugins]: a registration's [status], [error] and
    [config] (the object spread from [{ ...pluginReg.config, ...update }],
    whose keys are those of the update). The built-ins carry none of them
    initially. *)
Record BuiltinProps := mkBuiltinProps {
  b_status : option PluginStatus;
  b_error : option Err;
  b_config : option PartialConfig;
}.

Definition no_props : BuiltinProps := mkBuiltinProps None None None.
Definition set_b_status (st : PluginStatus) (b : BuiltinProps) :=
  mkBuiltinProps (Some st) (b_error b) (b_config b).
Definition set_b_error (e : Err) (b : BuiltinProps) :=
  mkBuiltinProps (b_status b) (Some e) (b_config b).
Definition set_b_config (c : PartialConfig) (b : BuiltinProps) :=
  mkBuiltinProps (b_status b) (b_error b) (Some c).

(** [{ ...c, ...u }] of two config objects given by their keys. *)
Definition merge_partial (c : option PartialConfig) (u : PartialConfig) : PartialConfig :=
  mkPartialConfig
    (match upd_enabled u with
     | Some b => Some b
     | None => match c with Some c0 => upd_enabled c0 | None => None end
     end)
    (upd_settings u ∪ match c with Some c0 => upd_settings c0 | None => ∅ end).

(** The data part of [AdapterState]. The own properties of the
    [registeredPlugins] object are split by what they hold: a registration
    ([registeredPlugins]) or the built-in object found at that key of
    [Object.prototype] ([builtinEntries]), which the store writes back as
    an own property after changing it. [builtinProps] is what the store has
    written on those built-in objects: page-global state, not part of the
    zustand store. *)
Record AdapterState := mkState {
  registeredPlugins : gmap string PluginRegistration;
  activeAdapterName : option string;
  currentCapabilities : list AdapterCapability;
  lastAdapterError : option (string * Err);
  builtinEntries : gset string;
  builtinProps : gmap string BuiltinProps;
}.

Definition initialState : AdapterState := mkState ∅ None [] None ∅ ∅.

(** The plugin lifecycle methods the store awaits. *)
Inductive Hook := HInitialize | HActivate | HDeactivate | HCleanup.

(** What the outside world does during one store action: for each plugin
    (by name) and lifecycle method, [None] when the awaited call resolves,
    [Some e] when it throws [e]; and the value of [Date.now()]. *)
Record Env := mkEnv {
  hook : string -> Hook -> option Err;
  now : nat;
}.

(** The outcome of an action: a value, a thrown value, or [ProtoWrite]
    where the code writes a property of [Object.prototype] itself (the
    built-in found at the key [__proto__]). Such a write changes every
    object of the page; the model does not follow the page past it. *)
Inductive Res (A : Type) :=
| Ok (a : A)
| Throw (e : Err)
| ProtoWrite.
Arguments Ok {A} a.
Arguments Throw {A} e.
Arguments ProtoWrite {A}.

Definition M (A : Type) : Type := Env -> AdapterState -> Res A * AdapterState.

#[global] Instance M_ret : MRet M := λ A a _ s, (Ok a, s).
#[global] Instance M_bind : MBind M := λ A B f m env s,
  match m env s with
  | (Ok a, s') => f a env s'
  | (Throw e, s') => (Throw e, s')
  | (ProtoWrite, s') => (ProtoWrite, s')
  end.

Definition get : M AdapterState := λ _ s, (Ok s, s).
Definition put (s : AdapterState) : M unit := λ _ _, (Ok tt, s).
Definition date_now : M nat := λ env s, (Ok (now env), s).
Definition throw {A} (e : Err) : M A := λ _ s, (Throw e, s).

(** [await p.<method>()] on the plugin object [p]. *)
Definition call_hook (p : AdapterPlugin) (h : Hook) : M unit := λ env s,
  match hook env (name p) h with
  | None => (Ok tt, s)
  | Some e => (Throw e, s)
  end.

(** [try { body } catch (e) { handler(e) }]: the state reached by [body]
    before the throw is kept (the source mutates in place). *)
Definition try_catch {A} (body : M A) (handler : Err -> M A) : M A := λ env s,
  match body env s with
  | (Ok a, s') => (Ok a, s')
  | (Throw e, s') => handler e env s'
  | (ProtoWrite, s') => (ProtoWrite, s')
  end.

(** The [TypeError] of reading the property [p] of [undefined]. *)
Definition type_error (p : string) : Err :=
  ErrThrown ("Cannot read properties of undefined (reading '" ++ p ++ "')").

(** The double quote character. *)
Definition dq : string := String "034"%char EmptyString.

(** [`Plugin "${name}" not registered.`] and [`Plugin "${name}" is disabled.`] *)
Definition not_registered_msg (n : string) : string :=
  "Plugin " ++ dq ++ n ++ dq ++ " not registered.".
Definition disabled_msg (n : string) : string :=
  "Plugin " ++ dq ++ n ++ dq ++ " is disabled.".

(** [set({ ... })] for each combination of keys the store writes. *)
Definition set_plugins (m : gmap string PluginRegistration) (s : AdapterState) :=
  mkState m (activeAdapterName s) (currentCapabilities s) (lastAdapterError s)
          (builtinEntries s) (builtinProps s).
Definition set_lastError (le : option (string * Err)) (s : AdapterState) :=
  mkState (registeredPlugins s) (activeAdapterName s) (currentCapabilities s) le
          (builtinEntries s) (builtinProps s).

(** What [registeredPlugins[k]] finds: a registration, the built-in
    object [Object.prototype[k]], or [undefined]. *)
Inductive Entry :=
| EReg (r : PluginRegistration)
| EBuiltin.

Definition lookup_entry (s : AdapterState) (k : string) : option Entry :=
  match registeredPlugins s !! k with
  | Some r => Some (EReg r)
  | None =>
      if bool_decide (k ∈ builtinEntries s \/ k ∈ proto_keys) then Some EBuiltin else None
  end.

Definition props_of (s : AdapterState) (k : string) : BuiltinProps :=
  default no_props (builtinProps s !! k).

(** [pluginReg.config] of the built-in at [k]: its own [config], written by
    the store; [Object.prototype.config] behind it is never set in the
    model, as writing it is [ProtoWrite]. *)
Definition builtin_config (s : AdapterState) (k : string) : option PartialConfig :=
  b_config (props_of s k).

(** Property writes [pluginReg.x = v] on the built-in at [k]. *)
Definition write_builtin (k : string) (f : BuiltinProps -> BuiltinProps) : M unit := λ _ s,
  if String.eqb k proto_object_key then (ProtoWrite, s)
  else (Ok tt, mkState (registeredPlugins s) (activeAdapterName s) (currentCapabilities s)
                       (lastAdapterError s) (builtinEntries s)
                       (<[k := f (props_of s k)]> (builtinProps s))).

(** [{ ...registeredPlugins, [k]: pluginReg }] for the built-in at [k]. *)
Definition own_builtin (k : string) (s : AdapterState) : AdapterState :=
  mkState (registeredPlugins s) (activeAdapterName s) (currentCapabilities s)
          (lastAdapterError s) ({[k]} ∪ builtinEntries s) (builtinProps s).

(** [Object] truthiness of [activeName]: the empty string is falsy. *)
Definition getActiveAdapter_of (s : AdapterState) : option Entry :=
  match activeAdapterName s with
  | Some n => if String.eqb n EmptyString then None else lookup_entry s n
  | None => None
  end.

Definition getActiveAdapter : M (option Entry) :=
  s ← get; mret (getActiveAdapter_of s).

Definition getPlugin (n : string) : M (option Entry) :=
  s ← get; mret (lookup_entry s n).

Definition sidebar : string := "sidebar-plugin".

Definition registerPlugin (p : AdapterPlugin) (c : PluginConfig) : M bool :=
  s ← get;
  match lookup_entry s (name p) with
  | Some _ => mret false
  | None =>
      t ← date_now;
      let registration := mkReg p c t Registered None None None in
      s' ← get;
      put (set_plugins (<[name p := registration]> (registeredPlugins s')) s');;
      mret true
  end.

Definition setPluginError (n : string) (e : Err) : M unit :=
  s ← get;
  match lookup_entry s n with
  | Some (EReg reg) =>
      let reg' := set_error (Some e) (set_status StatusError reg) in
      put (mkState (<[n := reg']> (registeredPlugins s)) (activeAdapterName s)
                   (currentCapabilities s) (Some (n, e)) (builtinEntries s) (builtinProps s))
  | Some EBuiltin =>
      write_builtin n (λ b, set_b_error e (set_b_status StatusError b));;
      s' ← get;
      put (own_builtin n (set_lastError (Some (n, e)) s'))
  | None => put (set_lastError (Some (n, e)) s)
  end.

Definition unregisterPlugin (n : string) : M unit :=
  s ← get;
  match lookup_entry s n with
  | None => mret tt
  | Some entry =>
      (match entry with
       | EReg reg =>
           match instance reg with
           | Some i =>
               if decide (activeAdapterName s = Some n) then
                 try_catch (call_hook i HDeactivate;; call_hook i HCleanup)
                           (λ _, mret tt)
               else mret tt
           | None => mret tt
           end
       | EBuiltin => mret tt   (* [pluginReg.instance] is undefined *)
       end);;
      s' ← get;
      let was_active := bool_decide (activeAdapterName s' = Some n) in
      (* [const { [name]: _, ...remainingPlugins } = registeredPlugins] *)
      put (mkState (delete n (registeredPlugins s'))
                   (if was_active then None else activeAdapterName s')
                   (if was_active then [] else currentCapabilities s')
                   (lastAdapterError s')
                   (builtinEntries s' ∖ {[n]}) (builtinProps s'))
  end.

(** The deactivation of the current adapter when another one is activated;
    [currentActiveAdapter.plugin.name] throws when the pointer names a
    built-in (its [plugin] is undefined). *)
Definition deactivate_current (n : string) : M unit :=
  cur ← getActiveAdapter;
  match cur with
  | Some (EReg ca) =>
      if negb (String.eqb (name (plugin ca)) n) then
        (* Never deactivate sidebar-plugin *)
        if negb (String.eqb (name (plugin ca)) sidebar) then
          try_catch (match instance ca with
                     | Some i => call_hook i HDeactivate
                     | None => mret tt
                     end)
                    (λ _, mret tt)
        else mret tt
      else mret tt
  | Some EBuiltin => throw (type_error "name")
  | None => mret tt
  end.

Definition activateAdapter (n : string) : M bool :=
  s ← get;
  match lookup_entry s n with
  | None => setPluginError n (ErrString (not_registered_msg n));; mret false
  | Some EBuiltin =>
      (* [pluginReg] is the built-in [Object.prototype[n]] *)
      match builtin_config s n with
      | None => throw (type_error "enabled")
      | Some c =>
          if negb (default false (upd_enabled c)) then
            setPluginError n (ErrString (disabled_msg n));; mret false
          else
            deactivate_current n;;
            try_catch
              ((* [pluginReg.instance] is undefined and
                  [pluginReg.plugin.initialize] reads a property of undefined *)
               throw (type_error "initialize"))
              (λ e,
               write_builtin n (λ b, set_b_error e (set_b_status StatusError b));;
               s3 ← get;
               put (own_builtin n (set_lastError (Some (n, e)) s3));;
               mret false)
      end
  | Some (EReg pluginReg) =>
      if negb (enabled (config pluginReg)) then
        setPluginError n (ErrString (disabled_msg n));; mret false
      else
        deactivate_current n;;
        try_catch
          ((* lazy initialization; the store's object is mutated in place *)
           reg1 ← (match instance pluginReg with
                   | Some _ => mret pluginReg
                   | None =>
                       call_hook (plugin pluginReg) HInitialize;;
                       let r := set_status Initialized
                                  (set_instance (Some (plugin pluginReg)) pluginReg) in
                       s1 ← get;
                       put (set_plugins (<[n := r]> (registeredPlugins s1)) s1);;
                       mret r
                   end);
           (match instance reg1 with
            | Some i => call_hook i HActivate
            | None => mret tt
            end);;
           t ← date_now;
           let reg2 := set_lastUsedAt (Some t) (set_status Active reg1) in
           s2 ← get;
           put (mkState (<[n := reg2]> (registeredPlugins s2))
                        (if negb (String.eqb n sidebar) then Some n else activeAdapterName s2)
                        (capabilities (plugin reg2))
                        None (builtinEntries s2) (builtinProps s2));;
           mret true)
          (λ e,
           s3 ← get;
           (* [pluginReg] is the object held in the store *)
           let cur_reg := default pluginReg (registeredPlugins s3 !! n) in
           let reg3 := set_error (Some e) (set_status StatusError cur_reg) in
           put (mkState (<[n := reg3]> (registeredPlugins s3)) (activeAdapterName s3)
                        (currentCapabilities s3) (Some (n, e))
                        (builtinEntries s3) (builtinProps s3));;
           mret false)
  end.

Definition deactivateAdapter (n : string) (reason : option string) : M unit :=
  s ← get;
  match lookup_entry s n with
  | None => mret tt
  | Some entry =>
      if bool_decide (activeAdapterName s ≠ Some n) then mret tt
      else
        match entry with
        | EReg pluginReg =>
            try_catch
              ((match instance pluginReg with
                | Some i => call_hook i HDeactivate
                | None => mret tt
                end);;
               s1 ← get;
               put (mkState (<[n := set_status Inactive pluginReg]> (registeredPlugins s1))
                            None [] (lastAdapterError s1)
                            (builtinEntries s1) (builtinProps s1)))
              (λ e,
               s2 ← get;
               let reg' := set_error (Some e) (set_status StatusError pluginReg) in
               put (mkState (<[n := reg']> (registeredPlugins s2)) (activeAdapterName s2)
                            (currentCapabilities s2) (Some (n, e))
                            (builtinEntries s2) (builtinProps s2)))
        | EBuiltin =>
            (* [pluginReg.instance?.deactivate()] is skipped: no instance *)
            try_catch
              (write_builtin n (set_b_status Inactive);;
               s1 ← get;
               put (own_builtin n (mkState (registeredPlugins s1) None [] (lastAdapterError s1)
                                           (builtinEntries s1) (builtinProps s1))))
              (λ e,
               write_builtin n (λ b, set_b_error e (set_b_status StatusError b));;
               s2 ← get;
               put (own_builtin n (set_lastError (Some (n, e)) s2)))
        end
  end.

Definition updatePluginConfig (n : string) (u : PartialConfig) : M unit :=
  s ← get;
  match lookup_entry s n with
  | None => mret tt
  | Some (EReg pluginReg) =>
      let reg' := set_config (merge_config (config pluginReg) u) pluginReg in
      s1 ← get;
      put (set_plugins (<[n := reg']> (registeredPlugins s1)) s1);;
      s2 ← get;
      if bool_decide (activeAdapterName s2 = Some n) && negb (enabled (config reg')) then
        deactivateAdapter n (Some "disabled by config update")
      else mret tt
  | Some EBuiltin =>
      let c' := merge_partial (builtin_config s n) u in
      write_builtin n (set_b_config c');;
      s1 ← get;
      put (own_builtin n s1);;
      s2 ← get;
      if bool_decide (activeAdapterName s2 = Some n) && bool_decide (upd_enabled c' = Some false)
      then deactivateAdapter n (Some "disabled by config update")
      else mret tt
  end.

(** Running an action: its result and the store afterwards. *)
Definition run {A} (m : M A) (env : Env) (s : AdapterState) := m env s.

(** The model follows an action unless it writes [Object.prototype]. *)
Definition followed {A} (r : Res A) : Prop :=
  match r with ProtoWrite => False | _ => True end.

(** One store action, called from any state with any name and any
    behaviour of the plugins' lifecycle methods, as far as the model
    follows it. *)
Inductive step : AdapterState -> AdapterState -> Prop :=
| step_register env s p c :
    followed (fst (registerPlugin p c env s)) -> step s (snd (registerPlugin p c env s))
| step_unregister env s n :
    followed (fst (unregisterPlugin n env s)) -> step s (snd (unregisterPlugin n env s))
| step_activate env s n :
    followed (fst (activateAdapter n env s)) -> step s (snd (activateAdapter n env s))
| step_deactivate env s n reason :
    followed (fst (deactivateAdapter n reason env s)) ->
    step s (snd (deactivateAdapter n reason env s))
| step_update_config env s n u :
    followed (fst (updatePluginConfig n u env s)) -> step s (snd (updatePluginConfig n u env s))
| step_set_error env s n e :
    followed (fst (setPluginError n e env s)) -> step s (snd (setPluginError n e env s)).

Inductive reachable : AdapterState -> Prop :=
| reachable_init : reachable initialState
| reachable_step s s' : reachable s -> step s s' -> reachable s'.

(** Concrete inputs: two site adapters and the sidebar plugin, all of
    whose lifecycle methods resolve. *)
Definition mk_site_plugin (n : string) : AdapterPlugin :=
  mkPlugin n "1.0.0" [CapTextInsertion; CapFormSubmission] true false true.
Definition enabled_config : PluginConfig := mkConfig true ∅.
Definition disabled_config : PluginConfig := mkConfig false ∅.
Definition env_ok (t : nat) : Env := mkEnv (λ _ _, None) t.

Definition plugin_a : AdapterPlugin := mk_site_plugin "site-a".
Definition plugin_b : AdapterPlugin := mk_site_plugin "site-b".

(** register [site-a] and [site-b]; activate [site-a]. *)
Definition before_switch : AdapterState :=
  let e := env_ok 1 in
  let s1 := snd (registerPlugin plugin_a enabled_config e initialState) in
  let s2 := snd (registerPlugin plugin_b enabled_config e s1) in
  snd (activateAdapter "site-a" e s2).

(** then activate [site-b]. *)
Definition switch_scenario : AdapterState :=
  snd (activateAdapter "site-b" (env_ok 2) before_switch).

#[global] Instance Hook_eq_dec : EqDecision Hook.
Proof. solve_decision. Defined.

(** [site-a]'s [deactivate] throws; everything else resolves. *)
Definition env_deactivate_throws (t : nat) : Env :=
  mkEnv (λ n h, if bool_decide (n = "site-a" /\ h = HDeactivate)
                then Some (ErrThrown "deactivate failed") else None) t.

(** register [site-a] disabled, then try to activate it. *)
Definition disabled_scenario : AdapterState :=
  let e := env_ok 1 in
  let s1 := snd (registerPlugin plugin_a disabled_config e initialState) in
  snd (activateAdapter "site-a" e s1).

Definition status_of (s : AdapterState) (n : string) : option PluginStatus :=
  status <$> registeredPlugins s !! n.

(** The names of the registrations with status [active], other than the
    sidebar plugin. *)
Definition active_exclusive_names (s : AdapterState) : list string :=
  map fst (filter (λ kv, status kv.2 = Active /\ name (plugin kv.2) <> sidebar)
                  (map_to_list (registeredPlugins s))).

(** The property I2 as the spec states it. *)
Definition instance_iff_status (s : AdapterState) : Prop :=
  forall n r, registeredPlugins s !! n = Some r ->
    (is_Some (instance r) <-> In (status r) [Initialized; Active; Inactive; StatusError]).

(** What the code does keep: an instance only on a registration that has
    left [registered], and always the plugin object itself; the statuses
    [initialized], [active], [inactive] only with an instance. *)
Definition reg_ok (r : PluginRegistration) : Prop :=
  (forall i, instance r = Some i ->
     i = plugin r /\ In (status r) [Initialized; Active; Inactive; StatusError]) /\
  (In (status r) [Initialized; Active; Inactive] -> is_Some (instance r)).

Definition regs_ok (m : gmap string PluginRegistration) : Prop :=
  map_Forall (λ _ r, reg_ok r) m.

(** The exclusive-adapter pointer names a registration with an instance. *)
Definition ptr_ok (m : gmap string PluginRegistration) (p : option string) : Prop :=
  forall n, p = Some n -> exists r, m !! n = Some r /\ is_Some (instance r).

(** No action replaces or drops the instance of a registration that stays. *)
Definition keeps_instances (s s' : AdapterState) : Prop :=
  forall n r i r', registeredPlugins s !! n = Some r -> instance r = Some i ->
    registeredPlugins s' !! n = Some r' -> instance r' = Some i.

(** The keys of the registrations are not properties of [Object.prototype]
    (the lookup in [registerPlugin] finds those), and the own properties
    holding a built-in are at such keys, other than [__proto__]. *)
Definition keys_ok (s : AdapterState) : Prop :=
  (forall n r, registeredPlugins s !! n = Some r -> n ∉ proto_keys) /\
  (forall n, n ∈ builtinEntries s -> n ∈ proto_keys /\ n <> proto_object_key).

Definition store_ok (s : AdapterState) : Prop :=
  regs_ok (registeredPlugins s) /\ ptr_ok (registeredPlugins s) (activeAdapterName s).

(** An action keeps each registration's identity: every registration
    after it either was there before, with the same plugin object and
    registration time, or is new and keyed by its plugin's name. *)
Definition keeps_identity (s s' : AdapterState) : Prop :=
  forall n r', registeredPlugins s' !! n = Some r' ->
    (exists r, registeredPlugins s !! n = Some r /\
       plugin r' = plugin r /\ registeredAt r' = registeredAt r) \/
    (registeredPlugins s !! n = None /\ name (plugin r') = n).

(** An action leaves the exclusive-adapter pointer alone, clears it, or
    points it at a name other than the sidebar plugin's. *)
Definition pointer_moves_to_site (s s' : AdapterState) : Prop :=
  activeAdapterName s' = activeAdapterName s \/ activeAdapterName s' = None \/
  exists n, activeAdapterName s' = Some n /\ n <> sidebar.

(** The registration [registerPlugin] creates for [site-b] in
    [before_switch]. *)
Definition reg_b : PluginRegistration :=
  mkReg plugin_b enabled_config 1 Registered None None None.

(** A plugin whose name is the empty string, registered enabled. *)
Definition empty_named_plugin : AdapterPlugin := mk_site_plugin EmptyString.
Definition empty_named_store : AdapterState :=
  snd (registerPlugin empty_named_plugin enabled_config (env_ok 1) initialState).

End AdapterStore.

(* ================================================================= *)
(** ** The automation service *)

Module Automation.
Import AdapterStore.

Record File := mkFile { file_name : string }.

(** [ToolExecutionCompleteDetail]: every field optional. *)
Record ToolExecutionCompleteDetail := mkDetail {
  result : option string;
  isFileAttachment : option bool;
  file : option File;
  fileName : option string;
  confirmationText : option string;
  skipAutoInsertCheck : option bool;
  callId : option string;
  functionName : option string;
}.

(** JS truthiness of an optional string and an optional boolean. *)
Definition truthy_str (o : option string) : bool :=
  match o with
  | Some t => negb (String.eqb t EmptyString)
  | None => false
  end.
Definition truthy_bool (o : option bool) : bool := default false o.

(** The automation part of the UI store's [preferences] (delays in seconds;
    fractional delays are not modelled). *)
Record UserPreferences := mkPrefs {
  pref_autoInsert : option bool;
  pref_autoSubmit : option bool;
  pref_autoExecute : option bool;
  pref_autoInsertDelay : option nat;
  pref_autoSubmitDelay : option nat;
  pref_autoExecuteDelay : option nat;
}.

Record AutomationState := mkAutomationState {
  autoInsert : bool;
  autoSubmit : bool;
  autoExecute : bool;
  autoInsertDelay : nat;
  autoSubmitDelay : nat;
  autoExecuteDelay : nat;
}.

(** What an awaited adapter method call does: resolve to a boolean or throw. *)
Inductive CallOutcome :=
| Returns (b : bool)
| Throws.

(** The world one pipeline run sees: whether [initializeStoreAccess] has
    filled [storeRefs], the user preferences, the adapter store, and what the
    active plugin's [insertText], [attachFile] and [submitForm] do. *)
Record World := mkWorld {
  store_access : bool;
  preferences : UserPreferences;
  adapter_state : AdapterState;
  insertText_outcome : string -> CallOutcome;
  attachFile_outcome : File -> CallOutcome;
  submitForm_outcome : CallOutcome;
}.

(** Observable effects, in the order the pipeline performs them. *)
Inductive Effect :=
| EInsertText (text : string)
| EAttachFile (f : File)
| ESubmitForm
| ESleep (ms : nat)
| EExposeState (a : AutomationState)
| EAutoExecuteLog (d : ToolExecutionCompleteDetail) (appliedDelay : nat).

(** Work handed to the event loop and not awaited: the
    [setTimeout(async () => insertText(confirmationText), 100)] callback, and
    the un-awaited [this.handleAutoExecute(detail)]. *)
Inductive Task :=
| TInsertConfirmation (text : string)
| TAutoExecute (d : ToolExecutionCompleteDetail).

(** A computation of the service: reads the world, records effects and
    spawned tasks, and either returns ([Some]) or throws ([None]). *)
Definition AM (A : Type) : Type := World -> option A * list Effect * list Task.

#[global] Instance AM_ret : MRet AM := λ A a _, (Some a, [], []).
#[global] Instance AM_bind : MBind AM := λ A B f m w,
  match m w with
  | (Some a, eff1, ts1) =>
      match f a w with
      | (r, eff2, ts2) => (r, eff1 ++ eff2, ts1 ++ ts2)
      end
  | (None, eff1, ts1) => (None, eff1, ts1)
  end.

Definition ask : AM World := λ w, (Some w, [], []).
Definition emit (e : Effect) : AM unit := λ _, (Some tt, [e], []).
Definition spawn (t : Task) : AM unit := λ _, (Some tt, [], [t]).

Definition try_catchA {A} (body : AM A) (handler : AM A) : AM A := λ w,
  match body w with
  | (Some a, eff, ts) => (Some a, eff, ts)
  | (None, eff1, ts1) =>
      match handler w with
      | (r, eff2, ts2) => (r, eff1 ++ eff2, ts1 ++ ts2)
      end
  end.

Definition outcome (o : CallOutcome) : AM bool := λ _,
  match o with
  | Returns b => (Some b, [], [])
  | Throws => (None, [], [])
  end.

(** Awaited calls of the bound adapter methods. *)
Definition call_insertText (t : string) : AM bool :=
  w ← ask; emit (EInsertText t);; outcome (insertText_outcome w t).
Definition call_attachFile (f : File) : AM bool :=
  w ← ask; emit (EAttachFile f);; outcome (attachFile_outcome w f).
Definition call_submitForm : AM bool :=
  w ← ask; emit ESubmitForm;; outcome (submitForm_outcome w).

(** [await new Promise(resolve => setTimeout(resolve, ms))] *)
Definition sleep_ms (ms : nat) : AM unit := emit (ESleep ms).

(** [await storeRefs.getUserPreferences?.()]: [undefined] without store access. *)
Definition getUserPreferences : AM (option UserPreferences) :=
  w ← ask; mret (if store_access w then Some (preferences w) else None).

Definition getAutomationState : AM (option AutomationState) :=
  p ← getUserPreferences;
  mret (match p with
        | None => None
        | Some pr =>
            Some (mkAutomationState
                    (default false (pref_autoInsert pr))
                    (default false (pref_autoSubmit pr))
                    (default false (pref_autoExecute pr))
                    (default 0 (pref_autoInsertDelay pr))
                    (default 0 (pref_autoSubmitDelay pr))
                    (default 0 (pref_autoExecuteDelay pr)))
        end).

Definition exposeAutomationStateToWindow : AM unit :=
  a ← getAutomationState;
  match a with
  | Some st => emit (EExposeState st)
  | None => mret tt
  end.

(** The value returned by [storeRefs.getCurrentAdapterState()]. *)
Record CurrentAdapterState := mkCurrent {
  cur_plugin : option AdapterPlugin;
  cur_insertText : bool;
  cur_attachFile : bool;
  cur_submitForm : bool;
  isReady : bool;
}.

Definition current_adapter_state (s : AdapterState) : CurrentAdapterState :=
  match getActiveAdapter_of s with
  | Some (EReg reg) =>
      let p := plugin reg in
      mkCurrent (Some p) (insertText_present p) (attachFile_present p)
                (submitForm_present p)
                (bool_decide (status reg = Active) &&
                 match lastAdapterError s with None => true | Some _ => false end)
  (* a built-in found at the pointer has no [plugin] *)
  | Some EBuiltin => mkCurrent None false false false false
  | None => mkCurrent None false false false false
  end.

Definition getCurrentAdapterState : AM (option CurrentAdapterState) :=
  w ← ask;
  mret (if store_access w then Some (current_adapter_state (adapter_state w)) else None).

(** [delay || 0], then the optional sleep. *)
Definition sleep_seconds (d : nat) : AM unit :=
  if bool_decide (0 < d) then sleep_ms (d * 1000) else mret tt.

Definition handleAutoExecute (d : ToolExecutionCompleteDetail) : AM unit :=
  p ← getUserPreferences;
  let delay := match p with Some pr => default 0 (pref_autoExecuteDelay pr) | None => 0 end in
  sleep_seconds delay;;
  emit (EAutoExecuteLog d delay).

Definition handleAutoInsert (d : ToolExecutionCompleteDetail) : AM bool :=
  p ← getUserPreferences;
  let delay := match p with Some pr => default 0 (pref_autoInsertDelay pr) | None => 0 end in
  sleep_seconds delay;;
  if truthy_bool (skipAutoInsertCheck d) then mret false
  else
    try_catchA
      (ca ← getCurrentAdapterState;
       match ca with
       | None => mret false
       | Some c =>
           match cur_plugin c with
           | None => mret false
           | Some _ =>
               if negb (isReady c) then mret false
               else
                 match file d with
                 | Some f =>
                     if truthy_bool (isFileAttachment d) && cur_attachFile c then
                       try_catchA
                         (success ← call_attachFile f;
                          if (success : bool) then
                            (if truthy_str (confirmationText d) && cur_insertText c then
                               spawn (TInsertConfirmation (default EmptyString (confirmationText d)))
                             else mret tt);;
                            mret true
                          else mret false)
                         (mret false)
                     else
                       if truthy_str (result d) && cur_insertText c then
                         try_catchA (call_insertText (default EmptyString (result d))) (mret false)
                       else mret false
                 | None =>
                     if truthy_str (result d) && cur_insertText c then
                       try_catchA (call_insertText (default EmptyString (result d))) (mret false)
                     else mret false
                 end
           end
       end)
      (mret false).

Definition handleAutoSubmit (d : ToolExecutionCompleteDetail) : AM bool :=
  p ← getUserPreferences;
  let delay := match p with Some pr => default 0 (pref_autoSubmitDelay pr) | None => 0 end in
  sleep_seconds delay;;
  try_catchA
    (ca ← getCurrentAdapterState;
     match ca with
     | None => mret false
     | Some c =>
         if negb (isReady c) || bool_decide (cur_plugin c = None) || negb (cur_submitForm c)
         then mret false
         else
           sleep_ms 800;;
           try_catchA call_submitForm (mret false)
     end)
    (mret false).

(** The listener's handler; [None] is an event without [detail]. *)
Definition handleToolExecutionComplete (ev : option ToolExecutionCompleteDetail) : AM unit :=
  match ev with
  | None => mret tt
  | Some d =>
      try_catchA
        (a ← getAutomationState;
         match a with
         | None => mret tt
         | Some st =>
             exposeAutomationStateToWindow;;
             (if autoExecute st then spawn (TAutoExecute d) else mret tt);;
             if autoInsert st && negb (truthy_bool (skipAutoInsertCheck d)) then
               insertSuccess ← handleAutoInsert d;
               if insertSuccess && autoSubmit st then
                 _ ← handleAutoSubmit d; mret tt
               else mret tt
             else mret tt
         end)
        (mret tt)
  end.

(** The event loop running a spawned task. *)
Definition run_task (t : Task) : AM unit :=
  match t with
  | TInsertConfirmation text =>
      sleep_ms 100;;
      try_catchA (_ ← call_insertText text; mret tt) (mret tt)
  | TAutoExecute d => handleAutoExecute d
  end.

Definition effects_of {A} (m : AM A) (w : World) : list Effect :=
  match m w with (_, eff, _) => eff end.
Definition tasks_of {A} (m : AM A) (w : World) : list Task :=
  match m w with (_, _, ts) => ts end.
Definition result_of {A} (m : AM A) (w : World) : option A :=
  match m w with (r, _, _) => r end.

(** Everything one completion event eventually does: the handler's own
    effects, then those of the tasks it handed to the event loop (which
    spawn nothing further). Only membership, not interleaving, is read
    off this list. *)
Definition eventual_effects (w : World) (ev : option ToolExecutionCompleteDetail) : list Effect :=
  effects_of (handleToolExecutionComplete ev) w ++
  concat (map (λ t, effects_of (run_task t) w) (tasks_of (handleToolExecutionComplete ev) w)).

(** Everything the auto-insert stage eventually does: [handleAutoInsert]'s
    own effects, then those of the confirmation insert it schedules with
    [setTimeout]. *)
Definition insert_stage_effects (d : ToolExecutionCompleteDetail) (w : World) : list Effect :=
  effects_of (handleAutoInsert d) w ++
  concat (map (λ t, effects_of (run_task t) w) (tasks_of (handleAutoInsert d) w)).

Definition is_insert (e : Effect) : bool :=
  match e with EInsertText _ => true | _ => false end.
Definition is_submit (e : Effect) : bool :=
  match e with ESubmitForm => true | _ => false end.

(** Concrete inputs: a site adapter with all three automation methods,
    registered and active; preferences with every stage on. *)
Definition full_plugin : AdapterPlugin :=
  mkPlugin "site-c" "1.0.0" [CapTextInsertion; CapFileAttachment; CapFormSubmission]
           true true true.

Definition store_with_full_plugin : AdapterState :=
  let e := env_ok 1 in
  snd (activateAdapter "site-c" e
         (snd (registerPlugin full_plugin enabled_config e initialState))).

Definition all_on : UserPreferences :=
  mkPrefs (Some true) (Some true) (Some false) (Some 1) None None.

Definition demo_file : File := mkFile "report.txt".

Definition world_ok : World :=
  mkWorld true all_on store_with_full_plugin (λ _, Returns true) (λ _, Returns true)
          (Returns true).

Definition file_event : ToolExecutionCompleteDetail :=
  mkDetail None (Some true) (Some demo_file) (Some "report.txt")
           (Some "File report.txt attached successfully") (Some false) (Some "c1") (Some "f").

Definition text_event (skip : bool) : ToolExecutionCompleteDetail :=
  mkDetail (Some "tool output") (Some false) None None None (Some skip) (Some "c2") (Some "f").

Definition world_insert_fails : World :=
  mkWorld true all_on store_with_full_plugin (λ _, Returns false) (λ _, Returns true)
          (Returns true).

(** Every effect satisfies [P] and every spawned task satisfies [Q]. *)
Definition sat_at {A} (P : Effect -> Prop) (Q : Task -> Prop) (m : AM A) (w : World) :=
  Forall P (effects_of m w) /\ Forall Q (tasks_of m w).

Definition no_insert_submit (e : Effect) : Prop := is_insert e = false /\ is_submit e = false.
Definition no_submit (e : Effect) : Prop := is_submit e = false.

(** The effects that call a method of the active adapter. *)
Definition is_adapter_call (e : Effect) : bool :=
  match e with EInsertText _ | EAttachFile _ | ESubmitForm => true | _ => false end.

Definition adapter_calls (l : list Effect) : list Effect := List.filter is_adapter_call l.

Definition no_call (e : Effect) : Prop := is_adapter_call e = false.

(** The detail [window.__automationService.testAutoSubmit()] passes to
    [triggerTestAutomation], which hands it to
    [handleToolExecutionComplete] in a fresh event. *)
Definition testAutoSubmit_detail : ToolExecutionCompleteDetail :=
  mkDetail (Some "Test result for auto submit") (Some false) None None None (Some true) None None.

(** Store access not initialised. *)
Definition world_no_store : World :=
  mkWorld false all_on store_with_full_plugin (λ _, Returns true) (λ _, Returns true)
          (Returns true).

(** Auto-insert switched off in the preferences. *)
Definition world_insert_off : World :=
  mkWorld true (mkPrefs (Some false) (Some true) (Some true) (Some 1) None None)
          store_with_full_plugin (λ _, Returns true) (λ _, Returns true) (Returns true).

End Automation.

Module Lifecycle.

(** The fields of the [AutomationService] singleton and the parts of the
    outside world its [initialize] and [cleanup] change: the listeners of
    the [mcp:tool-execution-complete] event on [document] (each arrow
    function the service creates is a fresh listener, named by a number),
    and the number of [connection:status-changed] handlers registered on
    the event bus. *)
Record ServiceState := mkService {
  isInitialized : bool;
  eventListener : option nat;
  doc_listeners : list nat;
  bus_handlers : nat;
  next_listener : nat;
}.

Definition fresh_service : ServiceState := mkService false None [] 0 0.

(** [document.removeEventListener(type, l)] *)
Definition removeEventListener (l : nat) (doc : list nat) : list nat :=
  filter (λ x, x ≠ l) doc.

(** [document.addEventListener(type, l)]: a listener already present is
    not added twice. *)
Definition addEventListener (l : nat) (doc : list nat) : list nat :=
  if decide (l ∈ doc) then doc else doc ++ [l].

Definition setupToolExecutionListener (s : ServiceState) : ServiceState :=
  let doc := match eventListener s with
             | Some l => removeEventListener l (doc_listeners s)
             | None => doc_listeners s
             end in
  let l := next_listener s in
  mkService (isInitialized s) (Some l) (addEventListener l doc) (bus_handlers s) (S l).

(** [eventBus.on('connection:status-changed', ...)]: never removed. *)
Definition setupMCPStateListener (s : ServiceState) : ServiceState :=
  mkService (isInitialized s) (eventListener s) (doc_listeners s) (S (bus_handlers s))
            (next_listener s).

Definition cleanup (s : ServiceState) : ServiceState :=
  if negb (isInitialized s) then s
  else
    let s1 := match eventListener s with
              | Some l => mkService (isInitialized s) None
                                    (removeEventListener l (doc_listeners s))
                                    (bus_handlers s) (next_listener s)
              | None => s
              end in
    mkService false (eventListener s1) (doc_listeners s1) (bus_handlers s1) (next_listener s1).

(** Where a pending [initialize()] call is suspended: after
    [await initializeStoreAccess()], after
    [await this.exposeAutomationStateToWindow()] (before
    [isInitialized = true]). *)
Inductive InitPc := AwaitStoreAccess | AwaitExpose.

(** The synchronous start of [initialize()]: the [isInitialized] test and
    [initializeStoreAccess()], which assigns [storeRefs] without awaiting. *)
Definition initialize_start (s : ServiceState) : option InitPc * ServiceState :=
  if isInitialized s then (None, s) else (Some AwaitStoreAccess, s).

(** Resuming a suspended call up to its next [await] or its end. *)
Definition initialize_resume (pc : InitPc) (s : ServiceState) : option InitPc * ServiceState :=
  match pc with
  | AwaitStoreAccess =>
      (Some AwaitExpose, setupMCPStateListener (setupToolExecutionListener s))
  | AwaitExpose =>
      (None, mkService true (eventListener s) (doc_listeners s) (bus_handlers s)
                       (next_listener s))
  end.

Definition option_to_list {A} (o : option A) : list A :=
  match o with Some x => [x] | None => [] end.

(** The service and its suspended [initialize()] calls. *)
Record Sys := mkSys { svc : ServiceState; pending : list InitPc }.

Inductive lstep : Sys -> Sys -> Prop :=
| lstep_initialize s ps :
    lstep (mkSys s ps)
          (mkSys (snd (initialize_start s)) (option_to_list (fst (initialize_start s)) ++ ps))
| lstep_resume s ps1 pc ps2 :
    lstep (mkSys s (ps1 ++ pc :: ps2))
          (mkSys (snd (initialize_resume pc s))
                 (ps1 ++ option_to_list (fst (initialize_resume pc s)) ++ ps2))
| lstep_cleanup s ps :
    lstep (mkSys s ps) (mkSys (cleanup s) ps).

Inductive lreachable : Sys -> Prop :=
| lreachable_init : lreachable (mkSys fresh_service [])
| lreachable_step c c' : lreachable c -> lstep c c' -> lreachable c'.

(** [initialize()] run to completion, then [cleanup()], [k] times. *)
Fixpoint init_cleanup_cycles (k : nat) (s : ServiceState) : ServiceState :=
  match k with
  | O => s
  | S k' =>
      init_cleanup_cycles k'
        (cleanup (snd (initialize_resume AwaitExpose
                         (snd (initialize_resume AwaitStoreAccess s)))))
  end.

(** One complete [initialize()] followed by [cleanup()]. *)
Definition init_cycle (s : ServiceState) : ServiceState :=
  cleanup (snd (initialize_resume AwaitExpose (snd (initialize_resume AwaitStoreAccess s)))).

End Lifecycle.


(* ================================================================= *)
(** ** Properties of the adapter store *)

Module RegistryFacts.
Import AdapterStore.

Ltac unfold_m :=
  unfold getActiveAdapter, setPluginError, set_plugins, set_lastError in *;
  unfold lookup_entry, write_builtin, own_builtin in *;
  unfold mbind, M_bind, mret, M_ret, get, put, date_now, call_hook, try_catch, throw in *;
  cbn in *.

Ltac norm_negb :=
  repeat match goal with
         | H : negb _ = true |- _ => apply negb_true_iff in H
         | H : negb _ = false |- _ => apply negb_false_iff in H
         | H : String.eqb _ _ = true |- _ => apply String.eqb_eq in H
         | H : String.eqb _ _ = false |- _ => apply String.eqb_neq in H
         end.

(** Deactivating the previous adapter during an activation changes
    nothing in the store. *)
Lemma deactivate_current_state env s n : snd (deactivate_current n env s) = s.
Proof.
  unfold deactivate_current. unfold_m.
  repeat case_match; cbn in *; simplify_eq; reflexivity.
Qed.

Lemma deactivate_current_ok env s n :
  getActiveAdapter_of s <> Some EBuiltin -> deactivate_current n env s = (Ok tt, s).
Proof.
  intros H. unfold deactivate_current. unfold_m.
  destruct (getActiveAdapter_of s) as [[ca|]|]; [|congruence|reflexivity].
  repeat case_match; cbn in *; simplify_eq; reflexivity.
Qed.

Ltac dc_state :=
  repeat match goal with
         | H : deactivate_current ?n ?e ?s = (?r, ?s') |- _ =>
             assert (s' = s) by
               (rewrite <- (deactivate_current_state e s n), H; reflexivity);
             subst s'; clear H
         end.

Ltac crush_m :=
  unfold_m; repeat case_match; cbn in *; dc_state; simplify_eq; norm_negb;
  try congruence; auto.

(** C7: activating ["sidebar-plugin"] never moves the exclusive-adapter
    pointer, whether the activation succeeds or fails. *)
Theorem activate_sidebar_keeps_pointer (env : Env) (s : AdapterState) :
  activeAdapterName (snd (activateAdapter sidebar env s)) = activeAdapterName s.
Proof. unfold activateAdapter. crush_m. Qed.

(** C9: unregistering a registered plugin never throws, whatever its
    [deactivate] and [cleanup] do; it removes exactly that registration and,
    when it held the exclusive slot, clears the pointer and the capabilities. *)
Theorem unregister_always_removes (env : Env) (s : AdapterState) (n : string)
    (r : PluginRegistration) :
  registeredPlugins s !! n = Some r ->
  fst (unregisterPlugin n env s) = Ok tt /\
  registeredPlugins (snd (unregisterPlugin n env s)) !! n = None /\
  (forall m, m <> n ->
     registeredPlugins (snd (unregisterPlugin n env s)) !! m = registeredPlugins s !! m) /\
  (activeAdapterName s = Some n ->
     activeAdapterName (snd (unregisterPlugin n env s)) = None /\
     currentCapabilities (snd (unregisterPlugin n env s)) = []).
Proof.
  intros Hn. unfold unregisterPlugin. unfold_m. rewrite Hn.
  crush_m; repeat split; intros; simplify_map_eq; auto;
    repeat case_bool_decide; simplify_eq; auto.
Qed.

Lemma unregister_always_removes_witness :
  let s := switch_scenario in
  let env := env_deactivate_throws 9 in
  fst (unregisterPlugin "site-b" env s) = Ok tt /\
  registeredPlugins (snd (unregisterPlugin "site-b" env s)) !! "site-b" = None /\
  (forall m, m <> "site-b" ->
     registeredPlugins (snd (unregisterPlugin "site-b" env s)) !! m = registeredPlugins s !! m) /\
  (activeAdapterName s = Some "site-b" ->
     activeAdapterName (snd (unregisterPlugin "site-b" env s)) = None /\
     currentCapabilities (snd (unregisterPlugin "site-b" env s)) = []).
Proof.
  intros s env.
  apply (unregister_always_removes env s "site-b"
           (set_lastUsedAt (Some 2) (set_status Active
              (set_status Initialized (set_instance (Some plugin_b)
                 (mkReg plugin_b enabled_config 1 Registered None None None)))))).
  vm_compute. reflexivity.
Defined.

(** C10: when the exclusive adapter's [deactivate] throws, deactivation
    records the error (status [error], [lastAdapterError]) but keeps the
    slot: the pointer still names it and the capabilities are unchanged. *)
Theorem deactivate_throw_keeps_slot (env : Env) (s : AdapterState) (n : string)
    (reason : option string) (r : PluginRegistration) (i : AdapterPlugin) (e : Err) :
  registeredPlugins s !! n = Some r ->
  activeAdapterName s = Some n ->
  instance r = Some i ->
  hook env (name i) HDeactivate = Some e ->
  status_of (snd (deactivateAdapter n reason env s)) n = Some StatusError /\
  lastAdapterError (snd (deactivateAdapter n reason env s)) = Some (n, e) /\
  activeAdapterName (snd (deactivateAdapter n reason env s)) = Some n /\
  currentCapabilities (snd (deactivateAdapter n reason env s)) = currentCapabilities s.
Proof.
  intros Hn Hact Hi Hh. unfold deactivateAdapter, status_of. unfold_m.
  rewrite Hn, Hi, Hact. rewrite bool_decide_false by congruence.
  cbn. rewrite Hh. cbn. rewrite Hact. simplify_map_eq. auto.
Qed.

Lemma deactivate_throw_keeps_slot_witness :
  let s := before_switch in
  let env := env_deactivate_throws 7 in
  status_of (snd (deactivateAdapter "site-a" None env s)) "site-a" = Some StatusError /\
  lastAdapterError (snd (deactivateAdapter "site-a" None env s)) =
    Some ("site-a", ErrThrown "deactivate failed") /\
  activeAdapterName (snd (deactivateAdapter "site-a" None env s)) = Some "site-a" /\
  currentCapabilities (snd (deactivateAdapter "site-a" None env s)) = currentCapabilities s.
Proof.
  intros s env.
  apply (deactivate_throw_keeps_slot env s "site-a" None
           (set_lastUsedAt (Some 1) (set_status Active
              (set_status Initialized (set_instance (Some plugin_a)
                 (mkReg plugin_a enabled_config 1 Registered None None None)))))
           plugin_a).
  - vm_compute. reflexivity.
  - vm_compute. reflexivity.
  - reflexivity.
  - vm_compute. reflexivity.
Defined.

Ltac reach_steps :=
  repeat first
    [ apply reachable_init
    | eapply reachable_step; [| apply step_activate; vm_compute; exact I]
    | eapply reachable_step; [| apply step_register; vm_compute; exact I] ].

Lemma before_switch_reachable : reachable before_switch.
Proof. unfold before_switch. cbv zeta. reach_steps. Qed.

(** C1 (fails): switching from one site adapter to another leaves both
    with status [active]: a reachable state with two active
    non-persistent registrations. *)
Theorem switch_leaves_two_active :
  reachable switch_scenario /\
  active_exclusive_names switch_scenario = ["site-a"; "site-b"].
Proof.
  split.
  - unfold switch_scenario.
    eapply reachable_step; [apply before_switch_reachable |].
    apply step_activate. vm_compute. exact I.
  - vm_compute. reflexivity.
Qed.

(** C2 (fails): activating another plugin [b] never touches the status of
    an active registration [a]: [a] stays [active] whatever [a]'s
    [deactivate] and [b]'s lifecycle methods do; on success with [b] not the
    sidebar, the pointer moves to [b]. *)
Theorem activate_other_keeps_previous_active (env : Env) (s : AdapterState)
    (a b : string) (ra : PluginRegistration) :
  registeredPlugins s !! a = Some ra ->
  status ra = Active ->
  a <> b ->
  status_of (snd (activateAdapter b env s)) a = Some Active /\
  (fst (activateAdapter b env s) = Ok true -> b <> sidebar ->
   activeAdapterName (snd (activateAdapter b env s)) = Some b).
Proof.
  intros Ha Hst Hab. unfold activateAdapter, status_of. unfold_m.
  repeat case_match; cbn in *; dc_state; simplify_eq; norm_negb; simplify_map_eq;
    rewrite ?Ha; cbn; rewrite ?Hst; split; intros; simplify_eq; auto.
Qed.

Lemma activate_other_keeps_previous_active_witness :
  activeAdapterName before_switch = Some "site-a" /\
  (status_of (snd (activateAdapter "site-b" (env_ok 2) before_switch)) "site-a" = Some Active /\
   (fst (activateAdapter "site-b" (env_ok 2) before_switch) = Ok true -> "site-b" <> sidebar ->
    activeAdapterName (snd (activateAdapter "site-b" (env_ok 2) before_switch)) = Some "site-b")).
Proof.
  split; [vm_compute; reflexivity|].
  apply (activate_other_keeps_previous_active (env_ok 2) before_switch "site-a" "site-b"
           (set_lastUsedAt (Some 1) (set_status Active
              (set_status Initialized (set_instance (Some plugin_a)
                 (mkReg plugin_a enabled_config 1 Registered None None None)))))).
  - vm_compute. reflexivity.
  - reflexivity.
  - discriminate.
Defined.

Lemma ptr_ok_insert m p k v :
  ptr_ok m p -> (p = Some k -> is_Some (instance v)) -> ptr_ok (<[k:=v]> m) p.
Proof.
  intros Hp Hk n ->. destruct (decide (k = n)) as [<-|Hne].
  - exists v. rewrite lookup_insert_eq. auto.
  - rewrite lookup_insert_ne by done. apply Hp; done.
Qed.

Lemma ptr_ok_new m k v : is_Some (instance v) -> ptr_ok (<[k:=v]> m) (Some k).
Proof. intros Hv n [= <-]. exists v. rewrite lookup_insert_eq. auto. Qed.

Lemma ptr_ok_None m : ptr_ok m None.
Proof. intros n [=]. Qed.

Lemma ptr_ok_delete m p k : ptr_ok m p -> p <> Some k -> ptr_ok (delete k m) p.
Proof.
  intros Hp Hk n ->. rewrite lookup_delete_ne by congruence. apply Hp; done.
Qed.

Lemma ptr_ok_instance m p k r :
  ptr_ok m p -> m !! k = Some r -> p = Some k -> is_Some (instance r).
Proof. intros Hp Hk ->. destruct (Hp k eq_refl) as (r' & Hr' & Hi). congruence. Qed.

Ltac store_ok_tac :=
  unfold store_ok, regs_ok in *; cbn in *;
  repeat match goal with
  | |- _ /\ _ => split
  | |- map_Forall _ (<[_:=_]> _) => apply map_Forall_insert_2
  | |- map_Forall _ (delete _ _) => apply map_Forall_delete
  | |- ptr_ok (<[?k:=_]> _) (Some ?k) => apply ptr_ok_new
  | |- ptr_ok (<[_:=_]> _) _ => apply ptr_ok_insert
  | |- ptr_ok _ None => apply ptr_ok_None
  end.

Lemma reg_ok_error r e : reg_ok r -> reg_ok (set_error e (set_status StatusError r)).
Proof.
  intros [H1 H2]. split; cbn.
  - intros i Hi. destruct (H1 i Hi) as [Hp _]. split; [done | right; right; right; left; done].
  - intros Hin. destruct Hin as [?|[?|[?|[]]]]; discriminate.
Qed.

Lemma reg_ok_init r : reg_ok (set_status Initialized (set_instance (Some (plugin r)) r)).
Proof.
  split; cbn.
  - intros i [= <-]. split; [done | left; done].
  - intros _. eexists; done.
Qed.

Lemma reg_ok_active r t :
  reg_ok r -> is_Some (instance r) -> reg_ok (set_lastUsedAt t (set_status Active r)).
Proof.
  intros [H1 H2] Hi. split; cbn.
  - intros i Hi'. destruct (H1 i Hi') as [Hp _]. split; [done | right; left; done].
  - intros _. done.
Qed.

Lemma reg_ok_inactive r :
  reg_ok r -> is_Some (instance r) -> reg_ok (set_status Inactive r).
Proof.
  intros [H1 H2] Hi. split; cbn.
  - intros i Hi'. destruct (H1 i Hi') as [Hp _]. split; [done | right; right; left; done].
  - intros _. done.
Qed.

Lemma reg_ok_config r c : reg_ok r -> reg_ok (set_config c r).
Proof. intros [H1 H2]. split; cbn; auto. Qed.

Lemma reg_ok_fresh p c t : reg_ok (mkReg p c t Registered None None None).
Proof.
  split; cbn.
  - intros i [=].
  - intros Hin. destruct Hin as [?|[?|[?|[]]]]; discriminate.
Qed.

Ltac inst_solve :=
  cbn;
  first
    [ eexists; eassumption
    | eexists; reflexivity
    | match goal with
      | Hp : ptr_ok ?m ?p, Hl : ?m !! ?k = Some ?r, Ha : ?p = Some ?k
        |- is_Some (instance ?r) => exact (ptr_ok_instance _ _ _ _ Hp Hl Ha)
      end ].

Ltac reg_ok_solve :=
  lazymatch goal with
  | |- reg_ok (set_error _ (set_status StatusError _)) => apply reg_ok_error; reg_ok_solve
  | |- reg_ok (set_status Initialized (set_instance (Some (plugin _)) _)) => apply reg_ok_init
  | |- reg_ok (set_lastUsedAt _ (set_status Active _)) =>
      apply reg_ok_active; [reg_ok_solve | inst_solve]
  | |- reg_ok (set_status Inactive _) => apply reg_ok_inactive; [reg_ok_solve | inst_solve]
  | |- reg_ok (set_config _ _) => apply reg_ok_config; reg_ok_solve
  | |- reg_ok (mkReg _ _ _ Registered None None None) => apply reg_ok_fresh
  | |- reg_ok ?r =>
      match goal with
      | Hm : map_Forall _ ?m, Hl : ?m !! _ = Some r |- _ =>
          exact (map_Forall_lookup_1 _ _ _ _ Hm Hl)
      end
  end.

Ltac finish_ok :=
  repeat match goal with
         | H : bool_decide (_ ≠ _) = false |- _ =>
             apply bool_decide_eq_false in H; apply dec_stable in H
         end;
  first
    [ assumption
    | solve [reg_ok_solve]
    | solve [inst_solve]
    | solve [intros _; inst_solve]
    | solve [exfalso;
             match goal with
             | Hp : ptr_ok ?m ?p, Hl : ?m !! ?k = Some ?r, Ha : ?p = Some ?k,
               Hi : instance ?r = None |- _ =>
                 destruct (ptr_ok_instance _ _ _ _ Hp Hl Ha); congruence
             end]
    | solve [intros ?; cbn; eapply ptr_ok_instance; eassumption]
    | solve [let Hx := fresh in intros Hx;
             match goal with Hp : ptr_ok _ _ |- _ =>
               destruct (Hp _ Hx) as (? & ? & ?); congruence end] ].

Lemma setPluginError_ok env s n e :
  store_ok s -> store_ok (snd (setPluginError n e env s)).
Proof.
  intros [Hm Hp]. unfold_m.
  repeat case_match; cbn in *; simplify_eq; store_ok_tac; finish_ok.
Qed.

Lemma registerPlugin_ok env s p c :
  store_ok s -> store_ok (snd (registerPlugin p c env s)).
Proof.
  intros [Hm Hp]. unfold registerPlugin. unfold_m.
  repeat case_match; cbn in *; simplify_eq; store_ok_tac; finish_ok.
Qed.

Lemma unregisterPlugin_ok env s n :
  store_ok s -> store_ok (snd (unregisterPlugin n env s)).
Proof.
  intros [Hm Hp]. unfold unregisterPlugin. unfold_m.
  repeat case_match; cbn in *; simplify_eq; store_ok_tac;
    repeat case_bool_decide; try finish_ok; try discriminate;
    apply ptr_ok_delete; done.
Qed.

Lemma deactivateAdapter_ok env s n reason :
  store_ok s -> store_ok (snd (deactivateAdapter n reason env s)).
Proof.
  intros [Hm Hp]. unfold deactivateAdapter. unfold_m.
  repeat case_match; cbn in *; simplify_eq; store_ok_tac; finish_ok.
Qed.

Lemma updatePluginConfig_ok env s n u :
  store_ok s -> store_ok (snd (updatePluginConfig n u env s)).
Proof.
  intros [Hm Hp]. unfold updatePluginConfig. unfold_m.
  repeat case_match; cbn in *; simplify_eq;
    try apply deactivateAdapter_ok; store_ok_tac; finish_ok.
Qed.

Lemma activateAdapter_ok env s n :
  store_ok s -> store_ok (snd (activateAdapter n env s)).
Proof.
  intros [Hm Hp]. unfold activateAdapter. unfold_m.
  repeat case_match; cbn in *; dc_state; simplify_eq;
    repeat match goal with
           | H : registeredPlugins ?s !! ?k = Some ?r |- context [registeredPlugins ?s !! ?k] =>
               rewrite H
           end; simplify_map_eq; cbn;
    store_ok_tac; finish_ok.
Qed.

Lemma reachable_store_ok s : reachable s -> store_ok s.
Proof.
  induction 1 as [|s s' _ IH Hstep].
  - split; [apply map_Forall_empty | apply ptr_ok_None].
  - destruct Hstep.
    + by apply registerPlugin_ok.
    + by apply unregisterPlugin_ok.
    + by apply activateAdapter_ok.
    + by apply deactivateAdapter_ok.
    + by apply updatePluginConfig_ok.
    + by apply setPluginError_ok.
Qed.

Ltac keys_tac :=
  unfold keys_ok in *; cbn in *;
  repeat match goal with
         | H : bool_decide _ = true |- _ => apply bool_decide_eq_true in H
         | H : bool_decide _ = false |- _ => apply bool_decide_eq_false in H
         | H : _ /\ _ |- _ => destruct H
         end;
  norm_negb;
  split;
  [ let m := fresh "m" in let r0 := fresh "r0" in let Hm := fresh "Hm" in
    intros m r0 Hm;
    repeat first [ rewrite lookup_insert_Some in Hm | rewrite lookup_delete_Some in Hm ];
    naive_solver
  | let m := fresh "m" in let Hm := fresh "Hm" in
    intros m Hm;
    rewrite ?elem_of_union, ?elem_of_difference, ?elem_of_singleton in Hm;
    naive_solver ].

Lemma setPluginError_keys env s n e : keys_ok s -> keys_ok (snd (setPluginError n e env s)).
Proof. intros Hk. unfold_m. repeat case_match; cbn in *; simplify_eq; keys_tac. Qed.

Lemma registerPlugin_keys env s p c : keys_ok s -> keys_ok (snd (registerPlugin p c env s)).
Proof.
  intros Hk. unfold registerPlugin. unfold_m. repeat case_match; cbn in *; simplify_eq; keys_tac.
Qed.

Lemma unregisterPlugin_keys env s n : keys_ok s -> keys_ok (snd (unregisterPlugin n env s)).
Proof.
  intros Hk. unfold unregisterPlugin. unfold_m.
  repeat case_match; cbn in *; simplify_eq; keys_tac.
Qed.

Lemma deactivateAdapter_keys env s n reason :
  keys_ok s -> keys_ok (snd (deactivateAdapter n reason env s)).
Proof.
  intros Hk. unfold deactivateAdapter. unfold_m.
  repeat case_match; cbn in *; simplify_eq; keys_tac.
Qed.

Lemma updatePluginConfig_keys env s n u :
  keys_ok s -> keys_ok (snd (updatePluginConfig n u env s)).
Proof.
  intros Hk. unfold updatePluginConfig. unfold_m.
  repeat case_match; cbn in *; simplify_eq; try apply deactivateAdapter_keys; keys_tac.
Qed.

Lemma activateAdapter_keys env s n : keys_ok s -> keys_ok (snd (activateAdapter n env s)).
Proof.
  intros Hk. unfold activateAdapter. unfold_m.
  repeat case_match; cbn in *; dc_state; simplify_eq; keys_tac.
Qed.

Lemma reachable_keys_ok s : reachable s -> keys_ok s.
Proof.
  induction 1 as [|s s' _ IH Hstep].
  - split; [intros n r Hn; cbn in Hn; simplify_map_eq | intros n Hn; cbn in Hn; set_solver].
  - destruct Hstep.
    + by apply registerPlugin_keys.
    + by apply unregisterPlugin_keys.
    + by apply activateAdapter_keys.
    + by apply deactivateAdapter_keys.
    + by apply updatePluginConfig_keys.
    + by apply setPluginError_keys.
Qed.

(** In a reachable store the lookup finds a built-in only at a property of
    [Object.prototype], and the exclusive-adapter pointer names a
    registration. *)
Lemma reachable_builtin_proto s n :
  reachable s -> lookup_entry s n = Some EBuiltin -> n ∈ proto_keys.
Proof.
  intros Hr. destruct (reachable_keys_ok s Hr) as [_ Hb].
  unfold lookup_entry. case_match; [discriminate|].
  case_bool_decide as Hd; [|discriminate]. intros _.
  destruct Hd as [Hd|Hd]; [apply Hb|]; exact Hd.
Qed.

Lemma reachable_active_reg s :
  reachable s -> getActiveAdapter_of s <> Some EBuiltin.
Proof.
  intros Hr. destruct (reachable_store_ok s Hr) as [_ Hp].
  unfold getActiveAdapter_of. destruct (activeAdapterName s) as [n|] eqn:Ha; [|discriminate].
  destruct (String.eqb n EmptyString); [discriminate|].
  destruct (Hp n eq_refl) as (r & Hn & _). unfold lookup_entry. rewrite Hn. discriminate.
Qed.

(** C6 (fails): a property name of [Object.prototype], such as
    ["toString"], is in no reachable store's registration map; yet, as long
    as the store has written no [config] on that built-in, [activateAdapter]
    on it does not return [false]: the lookup finds the built-in, reading
    [pluginReg.config.enabled] throws a [TypeError], and the store is left
    as it was. *)
Theorem activate_inherited_name_throws (env : Env) (s : AdapterState) (n : string) :
  reachable s -> n ∈ proto_keys -> builtin_config s n = None ->
  registeredPlugins s !! n = None /\
  fst (activateAdapter n env s) = Throw (type_error "enabled") /\
  snd (activateAdapter n env s) = s.
Proof.
  intros Hr Hn Hc. destruct (reachable_keys_ok s Hr) as [Hk _].
  assert (Hnone : registeredPlugins s !! n = None).
  { destruct (registeredPlugins s !! n) as [r|] eqn:Hl; [|reflexivity].
    exfalso. exact (Hk n r Hl Hn). }
  split; [exact Hnone|].
  unfold activateAdapter. unfold_m. rewrite Hnone.
  rewrite bool_decide_true by (right; exact Hn). cbn. rewrite Hc. split; reflexivity.
Qed.

Lemma activate_inherited_name_throws_witness :
  registeredPlugins initialState !! "toString" = None /\
  fst (activateAdapter "toString" (env_ok 1) initialState) = Throw (type_error "enabled") /\
  snd (activateAdapter "toString" (env_ok 1) initialState) = initialState.
Proof.
  apply (activate_inherited_name_throws (env_ok 1) initialState "toString").
  - apply reachable_init.
  - apply (bool_decide_unpack _). vm_compute. exact I.
  - vm_compute. reflexivity.
Defined.

Ltac keeps_tac k :=
  let n0 := fresh "n0" in
  let r0 := fresh "r0" in
  let i0 := fresh "i0" in
  let r1 := fresh "r1" in
  let H1 := fresh "Hold" in
  let H2 := fresh "Hinst" in
  let H3 := fresh "Hnew" in
  intros n0 r0 i0 r1 H1 H2 H3;
  destruct (decide (n0 = k)); subst; simplify_map_eq; cbn in *; try congruence.

Lemma activateAdapter_keeps env s n :
  keeps_instances s (snd (activateAdapter n env s)).
Proof.
  unfold keeps_instances, activateAdapter. unfold_m.
  repeat case_match; cbn in *; dc_state; simplify_eq; keeps_tac n.
Qed.

Lemma registerPlugin_keeps env s p c :
  keeps_instances s (snd (registerPlugin p c env s)).
Proof.
  unfold keeps_instances, registerPlugin. unfold_m.
  repeat case_match; cbn in *; simplify_eq; keeps_tac (name p).
Qed.

Lemma unregisterPlugin_keeps env s n :
  keeps_instances s (snd (unregisterPlugin n env s)).
Proof.
  unfold keeps_instances, unregisterPlugin. unfold_m.
  repeat case_match; cbn in *; simplify_eq; keeps_tac n.
Qed.

Lemma setPluginError_keeps env s n e :
  keeps_instances s (snd (setPluginError n e env s)).
Proof.
  unfold keeps_instances. unfold_m.
  repeat case_match; cbn in *; simplify_eq; keeps_tac n.
Qed.

Lemma deactivateAdapter_keeps env s n reason :
  keeps_instances s (snd (deactivateAdapter n reason env s)).
Proof.
  unfold keeps_instances, deactivateAdapter. unfold_m.
  repeat case_match; cbn in *; simplify_eq; keeps_tac n.
Qed.

Lemma updatePluginConfig_keeps env s n u :
  keeps_instances s (snd (updatePluginConfig n u env s)).
Proof.
  unfold keeps_instances, updatePluginConfig, deactivateAdapter. unfold_m.
  repeat case_match; cbn in *; simplify_eq; keeps_tac n.
Qed.

Lemma step_keeps s s' : step s s' -> keeps_instances s s'.
Proof.
  destruct 1.
  - apply registerPlugin_keeps.
  - apply unregisterPlugin_keeps.
  - apply activateAdapter_keeps.
  - apply deactivateAdapter_keeps.
  - apply updatePluginConfig_keeps.
  - apply setPluginError_keeps.
Qed.

(** C5 (fails): activating a disabled plugin puts its registration in
    status [error] although no instance was ever created. *)
Lemma instance_iff_status_counterexample :
  ~ (forall s, reachable s -> instance_iff_status s).
Proof.
  intros H.
  assert (Hr : reachable disabled_scenario).
  { unfold disabled_scenario. cbv zeta. reach_steps. }
  specialize (H _ Hr "site-a"). vm_compute in H.
  destruct (proj2 (H _ eq_refl) ltac:(right; right; right; left; reflexivity)) as [x Hx].
  discriminate.
Qed.

(** C5 (as the code has it): in every reachable state a registration with
    an instance has left [registered], and its instance is the plugin object
    itself; statuses [initialized], [active] and [inactive] come with an
    instance; status [error] may come without one. No action replaces or
    drops the instance of a registration that stays in the map. *)
Theorem instance_lifecycle (s : AdapterState) :
  reachable s ->
  (forall n r, registeredPlugins s !! n = Some r ->
     (is_Some (instance r) -> In (status r) [Initialized; Active; Inactive; StatusError]) /\
     (In (status r) [Initialized; Active; Inactive] -> is_Some (instance r)) /\
     (forall i, instance r = Some i -> i = plugin r)) /\
  (forall s' n r r' i, step s s' ->
     registeredPlugins s !! n = Some r -> instance r = Some i ->
     registeredPlugins s' !! n = Some r' -> instance r' = Some i).
Proof.
  intros Hr. split.
  - intros n r Hn. destruct (reachable_store_ok s Hr) as [Hm _].
    destruct (map_Forall_lookup_1 _ _ _ _ Hm Hn) as [H1 H2].
    split; [|split]; auto.
    + intros [i Hi]. apply (H1 i Hi).
    + intros i Hi. apply (H1 i Hi).
  - intros s' n r r' i Hstep. apply (step_keeps s s' Hstep).
Qed.

Lemma instance_lifecycle_witness :
  reachable before_switch /\
  (forall n r, registeredPlugins before_switch !! n = Some r ->
     (is_Some (instance r) -> In (status r) [Initialized; Active; Inactive; StatusError]) /\
     (In (status r) [Initialized; Active; Inactive] -> is_Some (instance r)) /\
     (forall i, instance r = Some i -> i = plugin r)) /\
  (forall s' n r r' i, step before_switch s' ->
     registeredPlugins before_switch !! n = Some r -> instance r = Some i ->
     registeredPlugins s' !! n = Some r' -> instance r' = Some i).
Proof.
  split; [apply before_switch_reachable|].
  apply instance_lifecycle. apply before_switch_reachable.
Defined.

End RegistryFacts.

(* ================================================================= *)
(** ** Properties of the automation service *)

Module AutomationFacts.
Import AdapterStore Automation.

(** *** Effects of a computation, compositionally *)

Lemma result_bind {A B} (m : AM A) (f : A -> AM B) w :
  result_of (m ≫= f) w =
  match result_of m w with Some a => result_of (f a) w | None => None end.
Proof.
  unfold result_of, mbind, AM_bind.
  destruct (m w) as [[[a|] e] t]; [destruct (f a w) as [[r e2] t2]|]; reflexivity.
Qed.


Section Sat.
Context (P : Effect -> Prop) (Q : Task -> Prop) (w : World).

Lemma sat_ret {A} (a : A) : sat_at P Q (mret a) w.
Proof. split; constructor. Qed.

Lemma sat_bind {A B} (m : AM A) (f : A -> AM B) :
  sat_at P Q m w ->
  (forall a, result_of m w = Some a -> sat_at P Q (f a) w) ->
  sat_at P Q (m ≫= f) w.
Proof.
  unfold sat_at, effects_of, tasks_of, result_of, mbind, AM_bind.
  destruct (m w) as [[[a|] e] t]; intros [He Ht] Hf; auto.
  specialize (Hf a eq_refl). destruct (f a w) as [[r e2] t2].
  destruct Hf. split; apply Forall_app; auto.
Qed.

Lemma sat_try {A} (body handler : AM A) :
  sat_at P Q body w -> sat_at P Q handler w -> sat_at P Q (try_catchA body handler) w.
Proof.
  unfold sat_at, effects_of, tasks_of, try_catchA.
  destruct (body w) as [[[a|] e] t]; intros [He Ht]; auto.
  destruct (handler w) as [[r e2] t2]. intros [? ?]. split; apply Forall_app; auto.
Qed.

Lemma sat_emit e : P e -> sat_at P Q (emit e) w.
Proof. split; repeat constructor; auto. Qed.

Lemma sat_spawn t : Q t -> sat_at P Q (spawn t) w.
Proof. split; repeat constructor; auto. Qed.

Lemma sat_ask : sat_at P Q ask w.
Proof. split; constructor. Qed.

Lemma sat_outcome o : sat_at P Q (outcome o) w.
Proof. unfold sat_at, outcome, effects_of, tasks_of. destruct o; split; constructor. Qed.

End Sat.

(** Walk a computation, splitting on every test; [side] closes the
    conditions on single effects and tasks. *)
Ltac sat_tac side :=
  repeat
    (cbn beta iota zeta;
     lazymatch goal with
     | |- sat_at _ _ (mret _) _ => apply sat_ret
     | |- sat_at _ _ ask _ => apply sat_ask
     | |- sat_at _ _ (outcome _) _ => apply sat_outcome
     | |- sat_at _ _ (emit _) _ => apply sat_emit; side
     | |- sat_at _ _ (spawn _) _ => apply sat_spawn; side
     | |- sat_at _ _ (try_catchA _ _) _ => apply sat_try
     | |- sat_at _ _ (mbind _ _) _ =>
         apply sat_bind; [| let a := fresh "a" in let Ha := fresh "Hres" in intros a Ha]
     | |- sat_at _ _ (match ?x with _ => _ end) _ => destruct x eqn:?
     | |- sat_at _ _ (getUserPreferences) _ => unfold getUserPreferences
     | |- sat_at _ _ (getAutomationState) _ => unfold getAutomationState
     | |- sat_at _ _ (getCurrentAdapterState) _ => unfold getCurrentAdapterState
     | |- sat_at _ _ (sleep_seconds _) _ => unfold sleep_seconds
     | |- sat_at _ _ (sleep_ms _) _ => unfold sleep_ms
     | |- sat_at _ _ (call_insertText _) _ => unfold call_insertText
     | |- sat_at _ _ (call_attachFile _) _ => unfold call_attachFile
     | |- sat_at _ _ (call_submitForm) _ => unfold call_submitForm
     | |- sat_at _ _ exposeAutomationStateToWindow _ => unfold exposeAutomationStateToWindow
     end).


Lemma sat_weaken {A} (P P' : Effect -> Prop) (Q Q' : Task -> Prop) (m : AM A) w :
  sat_at P Q m w -> (forall e, P e -> P' e) -> (forall t, Q t -> Q' t) -> sat_at P' Q' m w.
Proof. intros [He Ht] HP HQ. split; eapply Forall_impl; eauto. Qed.

Lemma existsb_false_Forall {A} (f : A -> bool) (l : list A) :
  Forall (λ x, f x = false) l -> existsb f l = false.
Proof. induction 1; cbn; auto. rewrite H, IHForall. reflexivity. Qed.

(** The effects a completion event eventually causes all satisfy [P]
    when the handler's own do and every task it spawns runs with such
    effects only. *)
Lemma eventual_sat (P : Effect -> Prop) (Q : Task -> Prop) w ev :
  sat_at P Q (handleToolExecutionComplete ev) w ->
  (forall t, Q t -> Forall P (effects_of (run_task t) w)) ->
  Forall P (eventual_effects w ev).
Proof.
  intros [He Ht] Hrun. unfold eventual_effects. apply Forall_app; split; auto.
  induction Ht as [|t ts Hq _ IH]; cbn; [constructor|].
  apply Forall_app; split; auto.
Qed.

Lemma autoExecute_sat d w : sat_at no_insert_submit (λ _, False) (handleAutoExecute d) w.
Proof.
  unfold handleAutoExecute. sat_tac ltac:(split; reflexivity).
Qed.

Lemma autoInsert_no_submit d w : sat_at no_submit (λ _, True) (handleAutoInsert d) w.
Proof.
  unfold handleAutoInsert. sat_tac ltac:(first [reflexivity | exact I]).
Qed.

Lemma run_task_no_submit t w : Forall no_submit (effects_of (run_task t) w).
Proof.
  destruct t as [text|d].
  - assert (H : sat_at no_submit (λ _, True) (run_task (TInsertConfirmation text)) w).
    { cbn. sat_tac ltac:(first [reflexivity | exact I]). }
    apply H.
  - assert (H := autoExecute_sat d w). destruct H as [H _].
    eapply Forall_impl; [exact H|]. intros e [_ He]. exact He.
Qed.

(** C3: with [autoInsert] and [autoSubmit] on, an event flagged
    [skipAutoInsertCheck] makes the pipeline (and the tasks it spawns)
    call neither [insertText] nor [submitForm]. *)
Theorem skip_flag_blocks_insert_and_submit (w : World) (d : ToolExecutionCompleteDetail) :
  skipAutoInsertCheck d = Some true ->
  pref_autoInsert (preferences w) = Some true ->
  pref_autoSubmit (preferences w) = Some true ->
  existsb is_insert (eventual_effects w (Some d)) = false /\
  existsb is_submit (eventual_effects w (Some d)) = false.
Proof.
  intros Hskip Hins Hsub.
  assert (Hall : Forall no_insert_submit (eventual_effects w (Some d))).
  { apply (eventual_sat _ (λ t, exists d', t = TAutoExecute d')).
    - unfold handleToolExecutionComplete. rewrite Hskip.
      sat_tac ltac:(first [split; reflexivity | eexists; reflexivity]).
      all: match goal with
           | H : _ && negb (truthy_bool (Some true)) = true |- _ =>
               apply andb_prop in H; destruct H as [_ H]; discriminate
           end.
    - intros t [d' ->]. apply autoExecute_sat. }
  split; apply existsb_false_Forall; eapply Forall_impl; try exact Hall;
    intros e [H1 H2]; assumption.
Qed.

(** C4: when the auto-insert stage reports failure, the pipeline run
    never reaches [submitForm], whatever [autoSubmit] says. *)
Theorem insert_failure_blocks_submit (w : World) (d : ToolExecutionCompleteDetail) :
  result_of (handleAutoInsert d) w = Some false ->
  existsb is_submit (eventual_effects w (Some d)) = false.
Proof.
  intros Hfail. apply existsb_false_Forall.
  apply (eventual_sat no_submit (λ _, True)).
  - unfold handleToolExecutionComplete.
    sat_tac ltac:(first [reflexivity | exact I]).
    all: try apply autoInsert_no_submit.
    all: match goal with
         | Hr : result_of (handleAutoInsert _) _ = Some ?a, E : ?a && _ = true |- _ =>
             rewrite Hfail in Hr; injection Hr as <-; discriminate
         end.
  - intros t _. apply run_task_no_submit.
Qed.

Lemma insert_failure_blocks_submit_witness :
  result_of (handleAutoInsert (text_event false)) world_insert_fails = Some false /\
  existsb is_submit (eventual_effects world_insert_fails (Some (text_event false))) = false.
Proof.
  split; [vm_compute; reflexivity|].
  apply insert_failure_blocks_submit. vm_compute. reflexivity.
Defined.

Lemma skip_flag_blocks_insert_and_submit_witness :
  existsb is_insert (eventual_effects world_ok (Some (text_event true))) = false /\
  existsb is_submit (eventual_effects world_ok (Some (text_event true))) = false.
Proof.
  apply skip_flag_blocks_insert_and_submit; reflexivity.
Defined.

Lemma autoInsert_schedules w d f conf :
  file d = Some f -> confirmationText d = Some conf -> conf <> EmptyString ->
  cur_insertText (current_adapter_state (adapter_state w)) = true ->
  attachFile_outcome w f = Returns true ->
  In (EAttachFile f) (effects_of (handleAutoInsert d) w) ->
  In (TInsertConfirmation conf) (tasks_of (handleAutoInsert d) w).
Proof.
  intros Hf Hc Hne Hins Hout.
  assert (Ht : truthy_str (confirmationText d) = true).
  { rewrite Hc. cbn. apply negb_true_iff, String.eqb_neq. exact Hne. }
  unfold effects_of, tasks_of, handleAutoInsert, getUserPreferences, getCurrentAdapterState,
    sleep_seconds, sleep_ms, call_attachFile, call_insertText, mbind, AM_bind, mret, AM_ret,
    try_catchA, ask, emit, spawn, outcome.
  rewrite Hf, Ht, Hc.
  destruct (store_access w) eqn:Hs; cbn; rewrite ?Hins;
  repeat (case_match; cbn in *; simplify_eq); cbn; rewrite ?Hout in *; cbn in *;
    rewrite ?in_app_iff; cbn; intuition congruence.
Qed.

Lemma autoSubmit_no_attach d w :
  sat_at (λ e, forall f, e <> EAttachFile f) (λ _, True) (handleAutoSubmit d) w.
Proof.
  unfold handleAutoSubmit. sat_tac ltac:(first [intros ? ?; discriminate | exact I]).
Qed.

Lemma run_confirmation_inserts text w :
  In (EInsertText text) (effects_of (run_task (TInsertConfirmation text)) w).
Proof.
  unfold effects_of, run_task, sleep_ms, try_catchA, call_insertText, mbind, AM_bind,
    mret, AM_ret, ask, emit, outcome.
  cbn. destruct (insertText_outcome w text) as [[]|]; cbn; auto.
Qed.

Section NoUnfold.
Local Arguments handleAutoInsert : simpl never.
Local Arguments handleAutoSubmit : simpl never.

(** C8: after a successful attachment of the event's file, with non-empty
    confirmation text and a bound [insertText], the handler schedules the
    confirmation insertion, and running that task inserts exactly the
    event's confirmation text. *)
Theorem attach_success_inserts_confirmation (w : World) (d : ToolExecutionCompleteDetail)
    (f : File) (conf : string) :
  file d = Some f ->
  truthy_bool (isFileAttachment d) = true ->
  confirmationText d = Some conf -> conf <> EmptyString ->
  cur_insertText (current_adapter_state (adapter_state w)) = true ->
  In (EAttachFile f) (effects_of (handleToolExecutionComplete (Some d)) w) ->
  attachFile_outcome w f = Returns true ->
  In (TInsertConfirmation conf) (tasks_of (handleToolExecutionComplete (Some d)) w) /\
  In (EInsertText conf) (eventual_effects w (Some d)).
Proof.
  intros Hf _ Hc Hne Hins Hin Hout.
  assert (HT : In (TInsertConfirmation conf) (tasks_of (handleToolExecutionComplete (Some d)) w)).
  { revert Hin.
    unfold effects_of, tasks_of, handleToolExecutionComplete, exposeAutomationStateToWindow,
      getAutomationState, getUserPreferences, try_catchA, mbind, AM_bind, mret, AM_ret, ask,
      emit, spawn.
    cbn. intros Hin.
    pose proof (autoInsert_schedules w d f conf Hf Hc Hne Hins Hout) as HI.
    pose proof (autoSubmit_no_attach d w) as [HS _].
    unfold effects_of, tasks_of in HI, HS.
    repeat (case_match; cbn in *; simplify_eq); cbn in *;
      repeat match goal with
             | H : handleAutoInsert d w = _ |- _ => rewrite H in HI; clear H
             | H : handleAutoSubmit d w = _ |- _ => rewrite H in HS; clear H
             end;
      rewrite ?List.Forall_forall in HS;
      rewrite ?app_nil_r, ?in_app_iff in *; cbn in *;
      try match goal with HS : forall x, In x ?es -> _ |- _ =>
            assert (~ In (EAttachFile f) es) by (intros Hx; exact (HS _ Hx f eq_refl));
            clear HS end;
      intuition congruence. }
  split; [exact HT|].
  unfold eventual_effects. apply in_app_iff. right.
  apply in_concat. eexists. split; [apply in_map_iff; eexists; split; [reflexivity | exact HT]|].
  apply run_confirmation_inserts.
Qed.

Lemma attach_success_inserts_confirmation_witness :
  In (TInsertConfirmation "File report.txt attached successfully")
     (tasks_of (handleToolExecutionComplete (Some file_event)) world_ok) /\
  In (EInsertText "File report.txt attached successfully")
     (eventual_effects world_ok (Some file_event)).
Proof.
  apply (attach_success_inserts_confirmation world_ok file_event demo_file
           "File report.txt attached successfully").
  - reflexivity.
  - reflexivity.
  - reflexivity.
  - discriminate.
  - vm_compute. reflexivity.
  - vm_compute. repeat (first [left; reflexivity | right]).
  - reflexivity.
Defined.

End NoUnfold.

End AutomationFacts.

(* ================================================================= *)
(** ** Further properties of the adapter store actions *)

Module RegistryExtras.
Import AdapterStore Automation RegistryFacts.

Ltac lookup_tac := first [eassumption | reflexivity].

(** [registerPlugin] on a name already registered returns [false] and leaves the store exactly as it was (the new plugin and config are dropped). *)
Theorem register_duplicate_noop env s p c r :
  registeredPlugins s !! name p = Some r ->
  registerPlugin p c env s = (Ok false, s).
Proof. intros H. unfold registerPlugin. unfold_m. rewrite H. reflexivity. Qed.

Lemma register_duplicate_noop_witness :
  registerPlugin plugin_b disabled_config (env_ok 5) before_switch = (Ok false, before_switch).
Proof.
  apply (register_duplicate_noop (env_ok 5) before_switch plugin_b disabled_config reg_b).
  vm_compute. reflexivity.
Defined.

(** [registerPlugin] on a name the lookup [registeredPlugins[name]] does not find returns [true] and adds a registration with status [registered], no instance, no error, no last use and the current time; pointer, capabilities and last error are unchanged. On a name of a property of [Object.prototype], such as ["constructor"], the lookup finds the built-in: it returns [false] and leaves the store unchanged. *)
Theorem register_fresh env s p c :
  (lookup_entry s (name p) = None ->
   fst (registerPlugin p c env s) = Ok true /\
   registeredPlugins (snd (registerPlugin p c env s)) =
     <[name p := mkReg p c (now env) Registered None None None]> (registeredPlugins s) /\
   activeAdapterName (snd (registerPlugin p c env s)) = activeAdapterName s /\
   currentCapabilities (snd (registerPlugin p c env s)) = currentCapabilities s /\
   lastAdapterError (snd (registerPlugin p c env s)) = lastAdapterError s) /\
  (name p ∈ proto_keys -> registerPlugin p c env s = (Ok false, s)).
Proof.
  split.
  - intros H. unfold registerPlugin. unfold_m. unfold lookup_entry in H.
    repeat case_match; simplify_eq; cbn; auto.
  - intros H. assert (Hl : exists x, lookup_entry s (name p) = Some x).
    { unfold lookup_entry. destruct (registeredPlugins s !! name p); [eauto|].
      rewrite bool_decide_true by (right; exact H). eauto. }
    destruct Hl as [x Hl]. unfold registerPlugin, mbind, M_bind, get. cbn. rewrite Hl.
    reflexivity.
Qed.

Lemma register_fresh_witness :
  let env := env_ok 2 in let s := before_switch in let p := mk_site_plugin "site-d" in
  (fst (registerPlugin p enabled_config env s) = Ok true /\
   registeredPlugins (snd (registerPlugin p enabled_config env s)) =
     <[name p := mkReg p enabled_config (now env) Registered None None None]> (registeredPlugins s) /\
   activeAdapterName (snd (registerPlugin p enabled_config env s)) = activeAdapterName s /\
   currentCapabilities (snd (registerPlugin p enabled_config env s)) = currentCapabilities s /\
   lastAdapterError (snd (registerPlugin p enabled_config env s)) = lastAdapterError s) /\
  registerPlugin (mk_site_plugin "constructor") enabled_config env s = (Ok false, s).
Proof.
  intros env s p. split.
  - apply (proj1 (register_fresh env s p enabled_config)). vm_compute. reflexivity.
  - apply (proj2 (register_fresh env s (mk_site_plugin "constructor") enabled_config)).
    apply (bool_decide_unpack _). vm_compute. exact I.
Defined.

(** [setPluginError n e] on a name other than [__proto__] records [(n, e)] as [lastAdapterError]; if [n] is registered it sets that registration to status [error] with the error; if the lookup finds the built-in of [Object.prototype] at [n], it writes [status] and [error] on that built-in and stores it as an own entry under [n]; otherwise no registration or built-in changes. No other registration, the pointer and the capabilities change. On the unregistered name [__proto__] it writes [Object.prototype.status]. *)
Theorem setPluginError_effect env s n e :
  (n <> proto_object_key ->
   fst (setPluginError n e env s) = Ok tt /\
   lastAdapterError (snd (setPluginError n e env s)) = Some (n, e) /\
   activeAdapterName (snd (setPluginError n e env s)) = activeAdapterName s /\
   currentCapabilities (snd (setPluginError n e env s)) = currentCapabilities s /\
   (forall m, m <> n -> registeredPlugins (snd (setPluginError n e env s)) !! m = registeredPlugins s !! m) /\
   registeredPlugins (snd (setPluginError n e env s)) !! n =
     (λ r, set_error (Some e) (set_status StatusError r)) <$> registeredPlugins s !! n /\
   (lookup_entry s n = Some EBuiltin ->
      builtinEntries (snd (setPluginError n e env s)) = {[n]} ∪ builtinEntries s /\
      builtinProps (snd (setPluginError n e env s)) =
        <[n := set_b_error e (set_b_status StatusError (props_of s n))]> (builtinProps s)) /\
   (lookup_entry s n <> Some EBuiltin ->
      builtinEntries (snd (setPluginError n e env s)) = builtinEntries s /\
      builtinProps (snd (setPluginError n e env s)) = builtinProps s)) /\
  (n = proto_object_key -> registeredPlugins s !! n = None ->
   setPluginError n e env s = (ProtoWrite, s)).
Proof.
  split.
  - intros Hp. apply String.eqb_neq in Hp.
    unfold_m. destruct (registeredPlugins s !! n) eqn:H; cbn.
    + repeat split; intros; simplify_map_eq; rewrite ?H; auto; discriminate.
    + case_bool_decide; cbn; rewrite ?Hp; cbn;
        repeat split; intros; simplify_map_eq; rewrite ?H; auto; congruence.
  - intros -> H. unfold_m. rewrite H.
    rewrite bool_decide_true; [reflexivity|].
    right. apply (bool_decide_unpack _). vm_compute. exact I.
Qed.

Lemma setPluginError_effect_witness :
  let e := ErrString "failed" in
  (fst (setPluginError "toString" e (env_ok 1) initialState) = Ok tt /\
   lastAdapterError (snd (setPluginError "toString" e (env_ok 1) initialState)) = Some ("toString", e) /\
   activeAdapterName (snd (setPluginError "toString" e (env_ok 1) initialState)) =
     activeAdapterName initialState /\
   currentCapabilities (snd (setPluginError "toString" e (env_ok 1) initialState)) =
     currentCapabilities initialState /\
   (forall m, m <> "toString" ->
      registeredPlugins (snd (setPluginError "toString" e (env_ok 1) initialState)) !! m =
      registeredPlugins initialState !! m) /\
   registeredPlugins (snd (setPluginError "toString" e (env_ok 1) initialState)) !! "toString" =
     (λ r, set_error (Some e) (set_status StatusError r)) <$> registeredPlugins initialState !! "toString" /\
   (lookup_entry initialState "toString" = Some EBuiltin ->
      builtinEntries (snd (setPluginError "toString" e (env_ok 1) initialState)) =
        {["toString"]} ∪ builtinEntries initialState /\
      builtinProps (snd (setPluginError "toString" e (env_ok 1) initialState)) =
        <["toString" := set_b_error e (set_b_status StatusError (props_of initialState "toString"))]>
          (builtinProps initialState)) /\
   (lookup_entry initialState "toString" <> Some EBuiltin ->
      builtinEntries (snd (setPluginError "toString" e (env_ok 1) initialState)) =
        builtinEntries initialState /\
      builtinProps (snd (setPluginError "toString" e (env_ok 1) initialState)) =
        builtinProps initialState)) /\
  setPluginError "__proto__" e (env_ok 1) initialState = (ProtoWrite, initialState).
Proof.
  intros e. split.
  - apply (proj1 (setPluginError_effect (env_ok 1) initialState "toString" e)).
    vm_compute. discriminate.
  - apply (proj2 (setPluginError_effect (env_ok 1) initialState "__proto__" e));
      vm_compute; reflexivity.
Defined.

(** Actions on a name the store does not hold do nothing: [unregisterPlugin]
    and [updatePluginConfig] on a name the lookup [registeredPlugins[name]]
    does not find (neither registered nor a property of [Object.prototype]),
    and [deactivateAdapter] on a name that does not hold the exclusive slot,
    return normally and leave the store unchanged. *)
Theorem absent_name_noops env s n u reason :
  (lookup_entry s n = None ->
   unregisterPlugin n env s = (Ok tt, s) /\ updatePluginConfig n u env s = (Ok tt, s)) /\
  (activeAdapterName s <> Some n -> deactivateAdapter n reason env s = (Ok tt, s)).
Proof.
  split.
  - intros H. unfold unregisterPlugin, updatePluginConfig. unfold mbind, M_bind, get.
    cbn. rewrite H. split; reflexivity.
  - intros H. unfold deactivateAdapter. unfold mbind, M_bind, get. cbn.
    destruct (lookup_entry s n); [|reflexivity].
    rewrite bool_decide_true by done. reflexivity.
Qed.

Lemma absent_name_noops_witness :
  (unregisterPlugin "site-d" (env_ok 2) before_switch = (Ok tt, before_switch) /\
   updatePluginConfig "site-d" (mkPartialConfig (Some false) ∅) (env_ok 2) before_switch =
     (Ok tt, before_switch)) /\
  deactivateAdapter "site-b" None (env_ok 2) before_switch = (Ok tt, before_switch).
Proof.
  destruct (absent_name_noops (env_ok 2) before_switch "site-d" (mkPartialConfig (Some false) ∅) None)
    as [H1 _].
  destruct (absent_name_noops (env_ok 2) before_switch "site-b" (mkPartialConfig (Some false) ∅) None)
    as [_ H2].
  split; [apply H1 | apply H2]; vm_compute; [reflexivity | discriminate].
Defined.

(** [activateAdapter] on a name the lookup [registeredPlugins[name]] does not find (neither registered nor a property of [Object.prototype]) returns [false] and only records the error [Plugin "<name>" not registered.] as [lastAdapterError]. *)
Theorem activate_unregistered env s n :
  lookup_entry s n = None ->
  activateAdapter n env s =
    (Ok false, set_lastError (Some (n, ErrString (not_registered_msg n))) s).
Proof.
  intros H. unfold activateAdapter, setPluginError. unfold mbind, M_bind, get, put, mret, M_ret.
  cbn. rewrite H. cbn. rewrite ?H. reflexivity.
Qed.

Lemma activate_unregistered_witness :
  activateAdapter "site-d" (env_ok 2) before_switch =
    (Ok false, set_lastError (Some ("site-d", ErrString (not_registered_msg "site-d"))) before_switch) /\
  not_registered_msg "site-d" = ("Plugin " ++ dq ++ "site-d" ++ dq ++ " not registered.")%string.
Proof. split; [apply activate_unregistered; vm_compute; reflexivity | reflexivity]. Defined.

(** [activateAdapter] on a registered but disabled plugin returns [false], sets its status to [error], records [Plugin "<name>" is disabled.] as [lastAdapterError], and leaves the pointer and the capabilities unchanged. *)
Theorem activate_disabled env s n r :
  registeredPlugins s !! n = Some r -> enabled (config r) = false ->
  fst (activateAdapter n env s) = Ok false /\
  status_of (snd (activateAdapter n env s)) n = Some StatusError /\
  lastAdapterError (snd (activateAdapter n env s)) =
    Some (n, ErrString (disabled_msg n)) /\
  activeAdapterName (snd (activateAdapter n env s)) = activeAdapterName s /\
  currentCapabilities (snd (activateAdapter n env s)) = currentCapabilities s.
Proof.
  intros H He. unfold activateAdapter, status_of. unfold_m. rewrite H, He. cbn. rewrite H.
  simplify_map_eq. auto.
Qed.

Lemma activate_disabled_witness :
  let env := env_ok 2 in
  let s := snd (registerPlugin plugin_a disabled_config (env_ok 1) initialState) in
  (fst (activateAdapter "site-a" env s) = Ok false /\
   status_of (snd (activateAdapter "site-a" env s)) "site-a" = Some StatusError /\
   lastAdapterError (snd (activateAdapter "site-a" env s)) =
     Some ("site-a", ErrString (disabled_msg "site-a")) /\
   activeAdapterName (snd (activateAdapter "site-a" env s)) = activeAdapterName s /\
   currentCapabilities (snd (activateAdapter "site-a" env s)) = currentCapabilities s) /\
  disabled_msg "site-a" = ("Plugin " ++ dq ++ "site-a" ++ dq ++ " is disabled.")%string.
Proof.
  intros env s. split; [|reflexivity].
  apply (activate_disabled env s "site-a" (mkReg plugin_a disabled_config 1 Registered None None None));
    vm_compute; reflexivity.
Defined.

Lemma activate_ok_state env s n r :
  registeredPlugins s !! n = Some r ->
  fst (activateAdapter n env s) = Ok true ->
  (exists r', registeredPlugins (snd (activateAdapter n env s)) !! n = Some r' /\
     status r' = Active /\ instance r' = Some (default (plugin r) (instance r)) /\
     plugin r' = plugin r /\ config r' = config r /\ lastUsedAt r' = Some (now env)) /\
  currentCapabilities (snd (activateAdapter n env s)) = capabilities (plugin r) /\
  lastAdapterError (snd (activateAdapter n env s)) = None /\
  activeAdapterName (snd (activateAdapter n env s)) =
    (if String.eqb n sidebar then activeAdapterName s else Some n).
Proof.
  intros H. unfold activateAdapter. unfold_m. rewrite H.
  repeat case_match; cbn in *; dc_state; simplify_eq; norm_negb; simplify_map_eq; try congruence;
    intros; split; try (eexists; split; [reflexivity|]); cbn; rewrite ?String.eqb_refl; auto;
    repeat split; try rewrite String.eqb_refl; auto.
Qed.

(** A successful [activateAdapter n] leaves [n]'s registration [active] with an instance (the one it had, or its plugin), the same plugin and config, and the current time as last use; the capabilities become the plugin's, the last error is cleared, and the pointer moves to [n] unless [n] is the sidebar plugin. *)
Theorem activate_success env s n r :
  registeredPlugins s !! n = Some r ->
  fst (activateAdapter n env s) = Ok true ->
  (exists r', registeredPlugins (snd (activateAdapter n env s)) !! n = Some r' /\
     status r' = Active /\ instance r' = Some (default (plugin r) (instance r)) /\
     plugin r' = plugin r /\ config r' = config r /\ lastUsedAt r' = Some (now env)) /\
  currentCapabilities (snd (activateAdapter n env s)) = capabilities (plugin r) /\
  lastAdapterError (snd (activateAdapter n env s)) = None /\
  activeAdapterName (snd (activateAdapter n env s)) =
    (if String.eqb n sidebar then activeAdapterName s else Some n).
Proof. apply activate_ok_state. Qed.


Lemma activate_success_witness :
  let env := env_ok 2 in let s := before_switch in let r := reg_b in
  (exists r', registeredPlugins (snd (activateAdapter "site-b" env s)) !! "site-b" = Some r' /\
     status r' = Active /\ instance r' = Some (default (plugin r) (instance r)) /\
     plugin r' = plugin r /\ config r' = config r /\ lastUsedAt r' = Some (now env)) /\
  currentCapabilities (snd (activateAdapter "site-b" env s)) = capabilities (plugin r) /\
  lastAdapterError (snd (activateAdapter "site-b" env s)) = None /\
  activeAdapterName (snd (activateAdapter "site-b" env s)) =
    (if String.eqb "site-b" sidebar then activeAdapterName s else Some "site-b").
Proof. intros env s r. apply activate_success; vm_compute; reflexivity. Defined.

(** In every reachable store, [activateAdapter] on a name that is not a property of [Object.prototype] returns normally with a boolean; it returns [true] exactly when the name is registered and enabled, the plugin's [initialize] resolves if it has no instance yet, and the [activate] of its instance (or plugin) resolves. *)
Theorem activate_true_iff env s n :
  reachable s -> n ∉ proto_keys ->
  (exists b, fst (activateAdapter n env s) = Ok b) /\
  (fst (activateAdapter n env s) = Ok true <->
   exists r, registeredPlugins s !! n = Some r /\ enabled (config r) = true /\
     (instance r = None -> hook env (name (plugin r)) HInitialize = None) /\
     hook env (name (default (plugin r) (instance r))) HActivate = None).
Proof.
  intros Hr Hn.
  assert (Hne : lookup_entry s n <> Some EBuiltin)
    by (intros Hb; exact (Hn (reachable_builtin_proto s n Hr Hb))).
  pose proof (deactivate_current_ok env s n (reachable_active_reg s Hr)) as Hdc.
  unfold activateAdapter. unfold_m.
  destruct (registeredPlugins s !! n) as [r|] eqn:H; cbn.
  - rewrite ?Hdc. cbn.
    repeat case_match; cbn in *; simplify_eq; norm_negb; try congruence.
    all: split; [eexists; reflexivity|].
    all: split; intros Hx.
    all: try discriminate.
    all: try (destruct Hx as (r' & Hr' & He & Hi & Ha); simplify_eq;
             repeat match goal with Hq : instance _ = _ |- _ => rewrite Hq in * end;
             cbn in *; intuition congruence).
    all: eexists; split; [lookup_tac|].
    all: cbn in *; simplify_eq; repeat match goal with Hq : instance _ = _ |- _ => rewrite Hq end.
    all: cbn; repeat split; auto; intros; congruence.
  - destruct (bool_decide _) eqn:Hb; [congruence|]. cbn. rewrite H. cbn. rewrite Hb. cbn.
    split; [eexists; reflexivity|]. split; [discriminate|intros (r & Hr' & _)]. congruence.
Qed.

Lemma activate_true_iff_witness :
  (exists b, fst (activateAdapter "site-b" (env_ok 2) before_switch) = Ok b) /\
  (fst (activateAdapter "site-b" (env_ok 2) before_switch) = Ok true <->
   exists r, registeredPlugins before_switch !! "site-b" = Some r /\ enabled (config r) = true /\
     (instance r = None -> hook (env_ok 2) (name (plugin r)) HInitialize = None) /\
     hook (env_ok 2) (name (default (plugin r) (instance r))) HActivate = None).
Proof.
  apply activate_true_iff; [apply before_switch_reachable|].
  apply (bool_decide_eq_false ("site-b" ∈ proto_keys)). vm_compute. reflexivity.
Defined.

(** [deactivateAdapter n] on the registration holding the slot, whose [deactivate] resolves (or that has no instance), sets it to [inactive] and clears the pointer and the capabilities; the last error is kept. *)
Theorem deactivate_success env s n reason r :
  registeredPlugins s !! n = Some r -> activeAdapterName s = Some n ->
  (forall i, instance r = Some i -> hook env (name i) HDeactivate = None) ->
  deactivateAdapter n reason env s =
    (Ok tt, mkState (<[n := set_status Inactive r]> (registeredPlugins s)) None []
                    (lastAdapterError s) (builtinEntries s) (builtinProps s)).
Proof.
  intros Hn Ha Hh. unfold deactivateAdapter. unfold_m. rewrite Hn, Ha.
  rewrite bool_decide_false by congruence. cbn.
  destruct (instance r) as [i|] eqn:Hi; cbn; [rewrite (Hh i eq_refl)|]; reflexivity.
Qed.

Lemma reg_a_active :
  registeredPlugins before_switch !! "site-a" =
    Some (mkReg plugin_a enabled_config 1 Active (Some plugin_a) None (Some 1)).
Proof. vm_compute. reflexivity. Qed.

Lemma deactivate_success_witness :
  deactivateAdapter "site-a" None (env_ok 2) before_switch =
    (Ok tt, mkState (<["site-a" := set_status Inactive
                          (mkReg plugin_a enabled_config 1 Active (Some plugin_a) None (Some 1))]>
                       (registeredPlugins before_switch)) None [] (lastAdapterError before_switch)
                    (builtinEntries before_switch) (builtinProps before_switch)).
Proof.
  apply deactivate_success; [apply reg_a_active | vm_compute; reflexivity | intros; reflexivity].
Defined.

(** [updatePluginConfig] on a registered plugin that does not hold the slot, or stays enabled, only replaces its config by the merge of the old one with the update. *)
Theorem update_config_merges env s n u r :
  registeredPlugins s !! n = Some r ->
  (activeAdapterName s <> Some n \/ enabled (merge_config (config r) u) = true) ->
  updatePluginConfig n u env s =
    (Ok tt, set_plugins (<[n := set_config (merge_config (config r) u) r]> (registeredPlugins s)) s).
Proof.
  intros Hn Hc. unfold updatePluginConfig. unfold_m. rewrite Hn. cbn.
  destruct Hc as [Hc|Hc].
  - rewrite bool_decide_false by done. reflexivity.
  - rewrite Hc. cbn. rewrite andb_false_r. reflexivity.
Qed.

Lemma update_config_merges_witness :
  updatePluginConfig "site-b" (mkPartialConfig (Some false) ∅) (env_ok 2) before_switch =
    (Ok tt, set_plugins (<["site-b" := set_config
                              (merge_config (config reg_b) (mkPartialConfig (Some false) ∅)) reg_b]>
                           (registeredPlugins before_switch)) before_switch).
Proof. apply update_config_merges; [vm_compute; reflexivity | left; vm_compute; discriminate]. Defined.

(** [updatePluginConfig] that disables the plugin holding the slot, whose [deactivate] resolves (or that has no instance), merges the config and then deactivates it: status [inactive], pointer and capabilities cleared. *)
Theorem update_disable_active env s n u r :
  registeredPlugins s !! n = Some r -> activeAdapterName s = Some n ->
  enabled (merge_config (config r) u) = false ->
  (forall i, instance r = Some i -> hook env (name i) HDeactivate = None) ->
  updatePluginConfig n u env s =
    (Ok tt, mkState (<[n := set_status Inactive (set_config (merge_config (config r) u) r)]>
                       (registeredPlugins s)) None [] (lastAdapterError s)
                    (builtinEntries s) (builtinProps s)).
Proof.
  intros Hn Ha He Hh. unfold updatePluginConfig, deactivateAdapter. unfold_m. rewrite Hn, Ha. cbn.
  rewrite He, bool_decide_true by done. cbn. simplify_map_eq.
  rewrite bool_decide_false by congruence. cbn.
  destruct (instance r) as [i|] eqn:Hi; cbn; [rewrite (Hh i eq_refl)|]; cbn;
    rewrite insert_insert_eq; reflexivity.
Qed.

Lemma update_disable_active_witness :
  let r := mkReg plugin_a enabled_config 1 Active (Some plugin_a) None (Some 1) in
  let u := mkPartialConfig (Some false) ∅ in
  updatePluginConfig "site-a" u (env_ok 2) before_switch =
    (Ok tt, mkState (<["site-a" := set_status Inactive (set_config (merge_config (config r) u) r)]>
                       (registeredPlugins before_switch)) None [] (lastAdapterError before_switch)
                    (builtinEntries before_switch) (builtinProps before_switch)).
Proof.
  intros r u.
  apply update_disable_active;
    [apply reg_a_active | vm_compute; reflexivity | vm_compute; reflexivity | intros; reflexivity].
Defined.

Ltac ident_tac k :=
  let n0 := fresh "n0" in
  let r1 := fresh "r1" in
  let H3 := fresh "Hnew" in
  intros n0 r1 H3;
  destruct (decide (n0 = k)); subst; simplify_map_eq; cbn in *;
  first [ left; eexists; split; [eassumption | split; reflexivity]
        | left; eexists; split; [reflexivity | split; reflexivity]
        | right; split; [eassumption | reflexivity]
        | idtac ].

Lemma activateAdapter_identity env s n : keeps_identity s (snd (activateAdapter n env s)).
Proof.
  unfold keeps_identity, activateAdapter. unfold_m.
  repeat case_match; cbn in *; dc_state; simplify_eq; ident_tac n.
Qed.

Lemma registerPlugin_identity env s p c : keeps_identity s (snd (registerPlugin p c env s)).
Proof.
  unfold keeps_identity, registerPlugin. unfold_m.
  repeat case_match; cbn in *; simplify_eq; ident_tac (name p).
Qed.

Lemma unregisterPlugin_identity env s n : keeps_identity s (snd (unregisterPlugin n env s)).
Proof.
  unfold keeps_identity, unregisterPlugin. unfold_m.
  repeat case_match; cbn in *; simplify_eq; ident_tac n.
Qed.

Lemma setPluginError_identity env s n e : keeps_identity s (snd (setPluginError n e env s)).
Proof.
  unfold keeps_identity. unfold_m.
  repeat case_match; cbn in *; simplify_eq; ident_tac n.
Qed.

Lemma deactivateAdapter_identity env s n reason :
  keeps_identity s (snd (deactivateAdapter n reason env s)).
Proof.
  unfold keeps_identity, deactivateAdapter. unfold_m.
  repeat case_match; cbn in *; simplify_eq; ident_tac n.
Qed.

Lemma updatePluginConfig_identity env s n u :
  keeps_identity s (snd (updatePluginConfig n u env s)).
Proof.
  unfold keeps_identity, updatePluginConfig, deactivateAdapter. unfold_m.
  repeat case_match; cbn in *; simplify_eq; ident_tac n.
Qed.

Ltac ptr_tac :=
  unfold pointer_moves_to_site; cbn;
  first [ left; reflexivity | right; left; reflexivity
        | right; right; eexists; split; [reflexivity | assumption] ].

Lemma activateAdapter_pointer env s n : pointer_moves_to_site s (snd (activateAdapter n env s)).
Proof.
  unfold activateAdapter. unfold_m.
  repeat case_match; cbn in *; dc_state; simplify_eq; norm_negb; ptr_tac.
Qed.

Lemma registerPlugin_pointer env s p c : pointer_moves_to_site s (snd (registerPlugin p c env s)).
Proof. unfold registerPlugin. unfold_m. repeat case_match; cbn in *; simplify_eq; ptr_tac. Qed.

Lemma unregisterPlugin_pointer env s n : pointer_moves_to_site s (snd (unregisterPlugin n env s)).
Proof. unfold unregisterPlugin. unfold_m. repeat case_match; cbn in *; simplify_eq; ptr_tac. Qed.

Lemma setPluginError_pointer env s n e : pointer_moves_to_site s (snd (setPluginError n e env s)).
Proof. unfold_m. repeat case_match; cbn in *; simplify_eq; ptr_tac. Qed.

Lemma deactivateAdapter_pointer env s n reason :
  pointer_moves_to_site s (snd (deactivateAdapter n reason env s)).
Proof. unfold deactivateAdapter. unfold_m. repeat case_match; cbn in *; simplify_eq; ptr_tac. Qed.

Lemma updatePluginConfig_pointer env s n u :
  pointer_moves_to_site s (snd (updatePluginConfig n u env s)).
Proof.
  unfold updatePluginConfig, deactivateAdapter. unfold_m.
  repeat case_match; cbn in *; simplify_eq; ptr_tac.
Qed.

Lemma step_identity s s' : step s s' -> keeps_identity s s'.
Proof.
  destruct 1.
  - apply registerPlugin_identity.
  - apply unregisterPlugin_identity.
  - apply activateAdapter_identity.
  - apply deactivateAdapter_identity.
  - apply updatePluginConfig_identity.
  - apply setPluginError_identity.
Qed.

Lemma step_pointer s s' : step s s' -> pointer_moves_to_site s s'.
Proof.
  destruct 1.
  - apply registerPlugin_pointer.
  - apply unregisterPlugin_pointer.
  - apply activateAdapter_pointer.
  - apply deactivateAdapter_pointer.
  - apply updatePluginConfig_pointer.
  - apply setPluginError_pointer.
Qed.


(** In every reachable store the exclusive-adapter pointer never names the sidebar plugin. *)
Theorem sidebar_never_exclusive s : reachable s -> activeAdapterName s <> Some sidebar.
Proof.
  induction 1 as [|s s' Hr IH Hs]; [discriminate|].
  destruct (step_pointer s s' Hs) as [->|[->|(n & -> & Hn)]]; congruence.
Qed.

Lemma sidebar_never_exclusive_witness : activeAdapterName before_switch <> Some sidebar.
Proof. apply sidebar_never_exclusive. apply before_switch_reachable. Defined.



(** No store action changes the plugin object or the registration time of a registration that stays under its name. *)
Theorem identity_stable s s' n r r' :
  step s s' -> registeredPlugins s !! n = Some r -> registeredPlugins s' !! n = Some r' ->
  plugin r' = plugin r /\ registeredAt r' = registeredAt r.
Proof.
  intros Hs Hn Hn'. destruct (step_identity s s' Hs n r' Hn') as [(r0 & H0 & ? & ?)|[H _]];
    [split|]; congruence.
Qed.

Lemma identity_stable_witness :
  let r := mkReg plugin_a enabled_config 1 Active (Some plugin_a) None (Some 1) in
  plugin (set_status Inactive r) = plugin r /\ registeredAt (set_status Inactive r) = registeredAt r.
Proof.
  intros r.
  apply (identity_stable before_switch (snd (deactivateAdapter "site-a" None (env_ok 2) before_switch))
           "site-a" r (set_status Inactive r));
    [apply step_deactivate; vm_compute; exact I | apply reg_a_active | vm_compute; reflexivity].
Defined.

(** In every reachable store the exclusive-adapter pointer names a
    registration that holds an instance. *)
Theorem active_pointer_has_instance s n :
  reachable s -> activeAdapterName s = Some n ->
  exists r, registeredPlugins s !! n = Some r /\ is_Some (instance r).
Proof. intros Hr Hn. destruct (reachable_store_ok s Hr) as [_ Hp]. exact (Hp n Hn). Qed.

Lemma active_pointer_has_instance_witness :
  exists r, registeredPlugins before_switch !! "site-a" = Some r /\ is_Some (instance r).
Proof.
  apply active_pointer_has_instance; [apply before_switch_reachable | vm_compute; reflexivity].
Defined.

(** After a successful activation of a site adapter with a non-empty name, the adapter state the automation reads (through [getActiveAdapter]) is that plugin, with its three methods and [isReady] true. *)
Theorem activation_makes_adapter_ready env s n r :
  registeredPlugins s !! n = Some r -> fst (activateAdapter n env s) = Ok true ->
  n <> sidebar -> n <> EmptyString ->
  current_adapter_state (snd (activateAdapter n env s)) =
    mkCurrent (Some (plugin r)) (insertText_present (plugin r)) (attachFile_present (plugin r))
              (submitForm_present (plugin r)) true.
Proof.
  intros Hn Hok Hsb Hne.
  destruct (activate_ok_state env s n r Hn Hok) as [(r' & Hl & Hst & _ & Hp & _) (_ & Herr & Hptr)].
  unfold current_adapter_state, getActiveAdapter_of, lookup_entry.
  rewrite Hptr. apply String.eqb_neq in Hsb, Hne. rewrite Hsb, Hne, Hl, Hst, Herr, Hp.
  reflexivity.
Qed.

Lemma activation_makes_adapter_ready_witness :
  current_adapter_state (snd (activateAdapter "site-b" (env_ok 2) before_switch)) =
    mkCurrent (Some plugin_b) (insertText_present plugin_b) (attachFile_present plugin_b)
              (submitForm_present plugin_b) true.
Proof.
  apply (activation_makes_adapter_ready (env_ok 2) before_switch "site-b" reg_b);
    [vm_compute; reflexivity | vm_compute; reflexivity | cbv; discriminate | cbv; discriminate].
Defined.

(** A plugin named by the empty string can be activated and takes the exclusive slot, yet the automation sees no active adapter: [getActiveAdapter] tests the pointer for truthiness. *)
Theorem empty_name_activation_invisible env s r :
  registeredPlugins s !! EmptyString = Some r -> fst (activateAdapter EmptyString env s) = Ok true ->
  activeAdapterName (snd (activateAdapter EmptyString env s)) = Some EmptyString /\
  cur_plugin (current_adapter_state (snd (activateAdapter EmptyString env s))) = None.
Proof.
  intros Hn Hok.
  destruct (activate_ok_state env s EmptyString r Hn Hok) as [_ (_ & _ & Hptr)].
  cbn in Hptr. split; [exact Hptr|].
  unfold current_adapter_state, getActiveAdapter_of. rewrite Hptr. reflexivity.
Qed.

Lemma empty_name_activation_invisible_witness :
  activeAdapterName (snd (activateAdapter EmptyString (env_ok 2) empty_named_store)) = Some EmptyString /\
  cur_plugin (current_adapter_state (snd (activateAdapter EmptyString (env_ok 2) empty_named_store))) = None.
Proof.
  apply (empty_name_activation_invisible (env_ok 2) empty_named_store
           (mkReg empty_named_plugin enabled_config 1 Registered None None None)).
  - vm_compute. reflexivity.
  - vm_compute. reflexivity.
Defined.

End RegistryExtras.


(* ================================================================= *)
(** ** Further properties of the automation handlers *)

Module AutomationExtras.
Import AdapterStore Automation AutomationFacts.

Lemma truthy_str_spec o :
  truthy_str o = true -> o = Some (default EmptyString o) /\ default EmptyString o <> EmptyString.
Proof.
  destruct o as [t|]; cbn; [|discriminate].
  intros H. apply negb_true_iff, String.eqb_neq in H. auto.
Qed.

Lemma adapter_calls_app l1 l2 : adapter_calls (l1 ++ l2) = adapter_calls l1 ++ adapter_calls l2.
Proof. unfold adapter_calls. induction l1 as [|e l1 IH]; cbn; [done|]. rewrite IH. by destruct (is_adapter_call e). Qed.

Ltac am_unfold :=
  unfold effects_of, result_of, tasks_of, handleAutoInsert, handleAutoSubmit,
    getUserPreferences, getCurrentAdapterState, sleep_seconds, sleep_ms, call_attachFile,
    call_insertText, call_submitForm, mbind, AM_bind, mret, AM_ret, try_catchA, ask, emit,
    spawn, outcome.

Ltac am_split :=
  repeat (case_match; cbn in *; simplify_eq);
  repeat match goal with
         | H : _ && _ = true |- _ => apply andb_prop in H; destruct H
         | H : _ || _ = false |- _ => apply orb_false_iff in H; destruct H
         | H : negb _ = false |- _ => apply negb_false_iff in H
         | H : negb _ = true |- _ => apply negb_true_iff in H
         | H : truthy_str ?o = true |- _ =>
             let Ht := fresh "Ht" in
             destruct (truthy_str_spec o H) as [Ht ?]; clear H
         end;
  cbn in *.


(** The auto-insert stage, counting the confirmation insert that [handleAutoInsert] schedules with [setTimeout], calls the adapter at most twice: no call; [insertText] with the event's non-empty result; [attachFile] with the event's file; or [attachFile] with the event's file followed by [insertText] with the event's non-empty confirmation text. *)
Theorem autoInsert_calls w d :
  adapter_calls (insert_stage_effects d w) = [] \/
  (exists t, adapter_calls (insert_stage_effects d w) = [EInsertText t] /\
             result d = Some t /\ t <> EmptyString) \/
  (exists f, adapter_calls (insert_stage_effects d w) = [EAttachFile f] /\
             file d = Some f) \/
  (exists f c, adapter_calls (insert_stage_effects d w) = [EAttachFile f; EInsertText c] /\
               file d = Some f /\ confirmationText d = Some c /\ c <> EmptyString).
Proof.
  unfold insert_stage_effects, run_task. am_unfold. am_split;
  repeat (case_match; cbn in *; simplify_eq);
  first [ left; reflexivity
        | right; left; eexists; split; [reflexivity|]; split; [eassumption|assumption]
        | right; right; left; eexists; split; [reflexivity|first [assumption | reflexivity]]
        | right; right; right; do 2 eexists; split; [reflexivity|];
          split; [first [assumption | reflexivity]|]; split; [eassumption|assumption] ].
Qed.

(** [handleAutoInsert] returns [true] exactly when its one adapter call was [insertText] or [attachFile] and that call returned [true]. *)
Theorem autoInsert_result_true_iff w d :
  result_of (handleAutoInsert d) w = Some true <->
  (exists t, adapter_calls (effects_of (handleAutoInsert d) w) = [EInsertText t] /\
             insertText_outcome w t = Returns true) \/
  (exists f, adapter_calls (effects_of (handleAutoInsert d) w) = [EAttachFile f] /\
             attachFile_outcome w f = Returns true).
Proof.
  am_unfold. am_split; split;
    first [ intros Hb; try (injection Hb as ->);
            first [ left; eexists; split; [reflexivity|assumption]
                            | right; eexists; split; [reflexivity|assumption] ]
          | discriminate
          | intros [(t & Hq & Ho)|(f' & Hq & Ho)]; simplify_eq; congruence
          | reflexivity ].
Qed.

(** When the event carries a file, is flagged as a file attachment and the adapter has [attachFile], the auto-insert stage never inserts the event's result: counting the confirmation insert it schedules, it calls nothing, attaches that file, or attaches that file and then inserts the event's confirmation text. *)
Theorem autoInsert_file_precedence w d f :
  file d = Some f -> truthy_bool (isFileAttachment d) = true ->
  cur_attachFile (current_adapter_state (adapter_state w)) = true ->
  adapter_calls (insert_stage_effects d w) = [] \/
  adapter_calls (insert_stage_effects d w) = [EAttachFile f] \/
  (exists c, adapter_calls (insert_stage_effects d w) = [EAttachFile f; EInsertText c] /\
             confirmationText d = Some c).
Proof.
  intros Hf Hi Ha. unfold insert_stage_effects, run_task. am_unfold. rewrite Hf, Hi.
  am_split; repeat (case_match; cbn in *; simplify_eq); rewrite ?Ha in *; cbn in *; simplify_eq;
    first [ left; reflexivity | right; left; reflexivity
          | right; right; eexists; split; [reflexivity|assumption]
          | congruence ].
Qed.

Lemma autoInsert_file_precedence_witness :
  adapter_calls (insert_stage_effects file_event world_ok) = [] \/
  adapter_calls (insert_stage_effects file_event world_ok) = [EAttachFile demo_file] \/
  (exists c, adapter_calls (insert_stage_effects file_event world_ok) =
               [EAttachFile demo_file; EInsertText c] /\
             confirmationText file_event = Some c).
Proof. apply autoInsert_file_precedence; vm_compute; reflexivity. Defined.

(** Without store access, or with no ready adapter, [handleAutoInsert] returns [false] without calling the adapter and without scheduling anything. *)
Theorem autoInsert_needs_ready w d :
  (store_access w = false \/ isReady (current_adapter_state (adapter_state w)) = false) ->
  result_of (handleAutoInsert d) w = Some false /\
  adapter_calls (effects_of (handleAutoInsert d) w) = [] /\
  tasks_of (handleAutoInsert d) w = [].
Proof.
  intros Hr. am_unfold. am_split; destruct Hr; auto; congruence.
Qed.

Lemma autoInsert_needs_ready_witness :
  result_of (handleAutoInsert (text_event false)) world_no_store = Some false /\
  adapter_calls (effects_of (handleAutoInsert (text_event false)) world_no_store) = [] /\
  tasks_of (handleAutoInsert (text_event false)) world_no_store = [].
Proof. apply autoInsert_needs_ready. left. reflexivity. Defined.

(** [handleAutoSubmit] either calls no adapter method, or its effects end with an 800 ms wait followed by one [submitForm] call, which happens only with store access and a ready adapter that has [submitForm]. *)
Theorem autoSubmit_shape w d :
  adapter_calls (effects_of (handleAutoSubmit d) w) = [] \/
  (exists pre, effects_of (handleAutoSubmit d) w = pre ++ [ESleep 800; ESubmitForm] /\
     adapter_calls pre = [] /\ store_access w = true /\
     isReady (current_adapter_state (adapter_state w)) = true /\
     cur_submitForm (current_adapter_state (adapter_state w)) = true).
Proof.
  am_unfold. am_split;
    first [ left; reflexivity
          | right; exists []; split; [reflexivity|]; repeat split; assumption
          | right; refine (ex_intro _ [_] _); split; [reflexivity|]; repeat split; assumption
].
Qed.

(** [handleAutoSubmit] returns [true] exactly when it called [submitForm] and that call returned [true]. *)
Theorem autoSubmit_result_true_iff w d :
  result_of (handleAutoSubmit d) w = Some true <->
  In ESubmitForm (effects_of (handleAutoSubmit d) w) /\ submitForm_outcome w = Returns true.
Proof.
  am_unfold. am_split; split;
    first [ intros Hb; try (injection Hb as ->); split; [cbn; intuition | first [assumption | reflexivity]]
          | discriminate
          | intros [Hin Ho]; cbn in Hin; intuition congruence
          | reflexivity ].
Qed.

Lemma submit_free_filter l : Forall no_submit l -> List.filter is_submit l = [].
Proof. induction 1 as [|e l He _ IH]; cbn; [done|]. unfold no_submit in He. by rewrite He, IH. Qed.

Lemma filter_submit_app l1 l2 :
  List.filter is_submit (l1 ++ l2) = List.filter is_submit l1 ++ List.filter is_submit l2.
Proof. induction l1 as [|e l1 IH]; cbn; [done|]. rewrite IH. by destruct (is_submit e). Qed.

Lemma autoSubmit_at_most_one_submit w d :
  length (List.filter is_submit (effects_of (handleAutoSubmit d) w)) <= 1.
Proof. am_unfold. am_split; cbn; lia. Qed.

Section NoUnfold.
Local Arguments handleAutoInsert : simpl never.
Local Arguments handleAutoSubmit : simpl never.

(** One completion event leads to at most one [submitForm] call, counting the handler and all the tasks it schedules. *)
Theorem at_most_one_submit_per_event w ev :
  length (List.filter is_submit (eventual_effects w ev)) <= 1.
Proof.
  unfold eventual_effects. rewrite filter_submit_app.
  assert (Htasks : List.filter is_submit
            (concat (map (λ t, effects_of (run_task t) w)
                         (tasks_of (handleToolExecutionComplete ev) w))) = []).
  { induction (tasks_of (handleToolExecutionComplete ev) w) as [|t ts IH]; cbn; [done|].
    rewrite filter_submit_app, IH, submit_free_filter by apply run_task_no_submit. done. }
  rewrite Htasks, app_nil_r.
  pose proof (autoInsert_no_submit) as HI.
  pose proof (autoSubmit_at_most_one_submit) as HS.
  destruct ev as [d|]; [|cbn; lia].
  specialize (HI d w). specialize (HS w d). destruct HI as [HI _].
  unfold effects_of in HI, HS.
  unfold effects_of, handleToolExecutionComplete, exposeAutomationStateToWindow,
    getAutomationState, getUserPreferences, try_catchA, mbind, AM_bind, mret, AM_ret, ask,
    emit, spawn.
  cbn.
  repeat (case_match; cbn in *; simplify_eq);
    repeat match goal with
           | H : handleAutoInsert d w = _ |- _ => rewrite H in HI; clear H
           | H : handleAutoSubmit d w = _ |- _ => rewrite H in HS; clear H
           end;
    rewrite ?app_nil_r, ?filter_submit_app in *; cbn;
    rewrite ?submit_free_filter by assumption; cbn; lia.
Qed.

End NoUnfold.


Lemma adapter_calls_nil l : Forall no_call l -> adapter_calls l = [].
Proof. induction 1 as [|e l He _ IH]; cbn; [done|]. unfold no_call in He. by rewrite He. Qed.

Lemma autoExecute_no_call d w : sat_at no_call (λ _, False) (handleAutoExecute d) w.
Proof. unfold handleAutoExecute. sat_tac ltac:(reflexivity). Qed.

Lemma run_autoExecute_no_call d w : Forall no_call (effects_of (run_task (TAutoExecute d)) w).
Proof. apply autoExecute_no_call. Qed.

(** The development helper [testAutoSubmit] never reaches the adapter: its detail sets [skipAutoInsertCheck], so the handler skips both auto-insert and auto-submit, whatever the preferences and the adapter. *)
Theorem testAutoSubmit_never_calls_adapter w :
  adapter_calls (eventual_effects w (Some testAutoSubmit_detail)) = [].
Proof.
  apply adapter_calls_nil.
  apply (eventual_sat _ (λ t, exists d', t = TAutoExecute d')).
  - unfold handleToolExecutionComplete.
    sat_tac ltac:(first [reflexivity | eexists; reflexivity]).
    all: match goal with
         | H : _ && negb (truthy_bool (skipAutoInsertCheck testAutoSubmit_detail)) = true |- _ =>
             apply andb_prop in H; destruct H as [_ H]; discriminate
         end.
  - intros t [d' ->]. apply run_autoExecute_no_call.
Qed.

(** Before store access is initialised, a completion event produces no effect and schedules nothing. *)
Theorem no_store_access_does_nothing w ev :
  store_access w = false ->
  effects_of (handleToolExecutionComplete ev) w = [] /\
  tasks_of (handleToolExecutionComplete ev) w = [].
Proof.
  intros H. destruct ev as [d|]; [|split; reflexivity].
  unfold effects_of, tasks_of, handleToolExecutionComplete, getAutomationState,
    getUserPreferences, try_catchA, mbind, AM_bind, mret, AM_ret, ask.
  cbn. rewrite H. split; reflexivity.
Qed.

Lemma no_store_access_does_nothing_witness :
  effects_of (handleToolExecutionComplete (Some (text_event false))) world_no_store = [] /\
  tasks_of (handleToolExecutionComplete (Some (text_event false))) world_no_store = [].
Proof. apply no_store_access_does_nothing. reflexivity. Defined.

Lemma getAutomationState_autoInsert w st :
  result_of getAutomationState w = Some (Some st) ->
  autoInsert st = default false (pref_autoInsert (preferences w)).
Proof.
  unfold result_of, getAutomationState, getUserPreferences, mbind, AM_bind, mret, AM_ret, ask.
  cbn. destruct (store_access w); cbn; intros H; simplify_eq; reflexivity.
Qed.

(** With auto-insert off (or unset) in the preferences, a completion event never calls the adapter, even with auto-submit on. *)
Theorem autoInsert_off_no_adapter_call w ev :
  default false (pref_autoInsert (preferences w)) = false ->
  adapter_calls (eventual_effects w ev) = [].
Proof.
  intros Hoff. apply adapter_calls_nil.
  apply (eventual_sat _ (λ t, exists d', t = TAutoExecute d')).
  - destruct ev as [d|]; [|split; constructor].
    unfold handleToolExecutionComplete.
    sat_tac ltac:(first [reflexivity | eexists; reflexivity]).
    all: match goal with
         | Hr : result_of getAutomationState _ = Some (Some ?st), H : autoInsert ?st && _ = true |- _ =>
             rewrite (getAutomationState_autoInsert _ _ Hr), Hoff in H; discriminate
         end.
  - intros t [d' ->]. apply run_autoExecute_no_call.
Qed.

Lemma autoInsert_off_no_adapter_call_witness :
  adapter_calls (eventual_effects world_insert_off (Some (text_event false))) = [].
Proof. apply autoInsert_off_no_adapter_call. reflexivity. Defined.

End AutomationExtras.


(* ================================================================= *)
(** ** The automation service's initialisation and cleanup *)

Module LifecycleFacts.
Import Lifecycle.

Lemma remove_single l : removeEventListener l [l] = [].
Proof. unfold removeEventListener. rewrite filter_cons_False; [done|]. intros H; apply H; done. Qed.

Lemma add_empty l : addEventListener l [] = [l].
Proof. unfold addEventListener. rewrite decide_False; [done|]. apply not_elem_of_nil. Qed.

Lemma listeners_invariant_step c c' :
  lstep c c' -> doc_listeners (svc c) = option_to_list (eventListener (svc c)) ->
  doc_listeners (svc c') = option_to_list (eventListener (svc c')).
Proof.
  destruct 1 as [s ps|s ps1 pc ps2|s ps]; cbn; intros H.
  - unfold initialize_start. destruct (isInitialized s); exact H.
  - destruct pc; cbn; [|exact H].
    unfold setupToolExecutionListener. rewrite H.
    destruct (eventListener s) as [l|]; cbn [option_to_list]; rewrite ?remove_single; apply add_empty.
  - unfold cleanup. destruct (isInitialized s); cbn; [|exact H].
    rewrite H. destruct (eventListener s) as [l|] eqn:El; cbn [option_to_list];
      [apply remove_single | rewrite El; exact H].
Qed.

(** However [initialize()] calls and [cleanup()] interleave, the document
    holds at most one tool-execution listener of the service, and exactly
    the one [eventListener] names. *)
Theorem single_listener c :
  lreachable c -> doc_listeners (svc c) = option_to_list (eventListener (svc c)).
Proof.
  induction 1 as [|c c' Hr IH Hs]; [reflexivity|].
  eapply listeners_invariant_step; eauto.
Qed.

Lemma single_listener_witness :
  doc_listeners (svc (mkSys (mkService false (Some 0) [0] 1 1) [AwaitExpose])) =
  option_to_list (eventListener (svc (mkSys (mkService false (Some 0) [0] 1 1) [AwaitExpose]))).
Proof.
  apply single_listener.
  exact (lreachable_step _ _
           (lreachable_step _ _ lreachable_init (lstep_initialize fresh_service []))
           (lstep_resume _ [] AwaitStoreAccess [])).
Defined.

Lemma init_cycle_reachable s :
  lreachable (mkSys s []) -> isInitialized s = false ->
  lreachable (mkSys (init_cycle s) []).
Proof.
  intros Hr Hi.
  assert (H1 : lreachable (mkSys s [AwaitStoreAccess])).
  { pose proof (lreachable_step _ _ Hr (lstep_initialize s [])) as H.
    unfold initialize_start in H. rewrite Hi in H. exact H. }
  pose proof (lreachable_step _ _ H1 (lstep_resume s [] AwaitStoreAccess [])) as H2.
  cbn in H2.
  pose proof (lreachable_step _ _ H2 (lstep_resume _ [] AwaitExpose [])) as H3.
  cbn in H3.
  exact (lreachable_step _ _ H3 (lstep_cleanup _ [])).
Qed.

Lemma init_cycle_fields s :
  isInitialized s = false -> eventListener s = None -> doc_listeners s = [] ->
  isInitialized (init_cycle s) = false /\ eventListener (init_cycle s) = None /\
  doc_listeners (init_cycle s) = [] /\ bus_handlers (init_cycle s) = S (bus_handlers s).
Proof.
  intros Hi He Hd. unfold init_cycle, cleanup, setupMCPStateListener, setupToolExecutionListener.
  cbn -[removeEventListener addEventListener]. rewrite He, Hd.
  cbn -[removeEventListener addEventListener]. rewrite add_empty.
  cbn -[removeEventListener]. rewrite remove_single. auto.
Qed.

Lemma cycles_unfold k s : init_cleanup_cycles (S k) s = init_cleanup_cycles k (init_cycle s).
Proof. reflexivity. Qed.

(** [cleanup()] never removes the [connection:status-changed] handler:
    after [k] rounds of [initialize()] and [cleanup()] the event bus holds
    [k] handlers of the service, while no document listener is left. *)
Theorem cleanup_leaves_bus_handlers k :
  lreachable (mkSys (init_cleanup_cycles k fresh_service) []) /\
  bus_handlers (init_cleanup_cycles k fresh_service) = k /\
  doc_listeners (init_cleanup_cycles k fresh_service) = [] /\
  isInitialized (init_cleanup_cycles k fresh_service) = false.
Proof.
  assert (Hgen : forall j s, lreachable (mkSys s []) -> isInitialized s = false ->
            eventListener s = None -> doc_listeners s = [] ->
            lreachable (mkSys (init_cleanup_cycles j s) []) /\
            bus_handlers (init_cleanup_cycles j s) = j + bus_handlers s /\
            doc_listeners (init_cleanup_cycles j s) = [] /\
            isInitialized (init_cleanup_cycles j s) = false).
  { clear k. intros j. induction j as [|k IH]; intros s Hr Hi He Hd; [auto|].
    rewrite cycles_unfold.
    destruct (init_cycle_fields s Hi He Hd) as (Hi' & He' & Hd' & Hb').
    destruct (IH (init_cycle s) (init_cycle_reachable s Hr Hi) Hi' He' Hd') as (? & Hb & ? & ?).
    split; [done|]. split; [lia|]. auto. }
  destruct (Hgen k fresh_service lreachable_init eq_refl eq_refl eq_refl) as (? & Hb & ? & ?).
  cbn in Hb. split; [done|]. split; [lia|]. auto.
Qed.

(** Two overlapping [initialize()] calls and a [cleanup()] can leave the
    service initialised with no tool-execution listener: the
    [isInitialized] guard is tested before the first [await], so both
    calls proceed; the cleanup removes the listener, and the second call
    then sets [isInitialized] without adding one. Later [initialize()]
    calls return at once, so events are no longer handled. *)
Theorem initialized_without_listener :
  exists c, lreachable c /\ pending c = [] /\
    isInitialized (svc c) = true /\ doc_listeners (svc c) = [] /\ eventListener (svc c) = None.
Proof.
  pose proof (lreachable_step _ _ lreachable_init (lstep_initialize fresh_service [])) as H1.
  cbn in H1.
  pose proof (lreachable_step _ _ H1 (lstep_initialize _ _)) as H2. cbn in H2.
  pose proof (lreachable_step _ _ H2 (lstep_resume _ [] AwaitStoreAccess [AwaitStoreAccess])) as H3.
  cbn in H3.
  pose proof (lreachable_step _ _ H3 (lstep_resume _ [] AwaitExpose [AwaitStoreAccess])) as H4.
  cbn in H4.
  pose proof (lreachable_step _ _ H4 (lstep_resume _ [] AwaitStoreAccess [])) as H5. cbn in H5.
  pose proof (lreachable_step _ _ H5 (lstep_cleanup _ _)) as H6. cbn in H6.
  pose proof (lreachable_step _ _ H6 (lstep_resume _ [] AwaitExpose [])) as H7. cbn in H7.
  eexists. split; [exact H7|]. vm_compute. auto.
Qed.

End LifecycleFacts.
